(** * loopgrab: the perception and decision core of [main.cpp]

    A shallow embedding of the [Pixel], [Rect] and [Game] classes of
    [src/main.cpp] and the properties of the specification that concern them.

    Conventions of the embedding.
    - A C++ [int] is a [Z]; every addition, subtraction and multiplication is
      followed by the two's-complement wrap to 32 bits ([Int.wrap]).  Integer
      division truncates towards zero ([Z.quot]).
    - [time_t] is a signed 64-bit count of seconds ([Clock.sub]).
    - A [GameFrame] is the raster that is current after [next()]: a total
      function from coordinates to packed pixel values.
    - A [GameControls] sink and [cerr] are write-only: the calls made on them
      are returned as a list of events, oldest first.
    - [time(NULL)] is an input: the reading taken inside [findBall] and the
      reading taken at the end of [step] are arguments of those functions.
    - The [do ... while] of [findColorBounds] and the grid scan of [findBall]
      run on fuel computed from their arguments; [None] means the fuel ran
      out.  [findColorBounds_total], [findBall_total] and [step_total] show
      that this does not happen while the arithmetic stays inside the [int]
      range.

    The file has the embedding first, then the notions and the example
    rasters and games that the statements use, then the properties of the
    specification, then further properties of the code. *)

From Stdlib Require Import ZArith Lia List Bool String.
Import ListNotations.
Local Open Scope Z_scope.

(** ** Machine integers *)

Module Int.

Definition min_signed : Z := -2147483648.
Definition max_signed : Z := 2147483647.

Definition wrap (z : Z) : Z := (z + 2147483648) mod 4294967296 - 2147483648.

Definition add (a b : Z) : Z := wrap (a + b).
Definition sub (a b : Z) : Z := wrap (a - b).
Definition mul (a b : Z) : Z := wrap (a * b).
Definition div (a b : Z) : Z := Z.quot a b.

Definition in_range (z : Z) : Prop := min_signed <= z <= max_signed.

End Int.

Module Clock.

Definition wrap (z : Z) : Z :=
  (z + 9223372036854775808) mod 18446744073709551616 - 9223372036854775808.

Definition sub (a b : Z) : Z := wrap (a - b).

Definition in_range (z : Z) : Prop :=
  - 9223372036854775808 <= z <= 9223372036854775807.

End Clock.

(** ** Pixel *)

Module Pixel.

(** The packed 32-bit value [c]. *)
Definition t : Type := Z.

(** [Pixel(uint8_t b, uint8_t g, uint8_t r, uint8_t a)] *)
Definition make (b g r a : Z) : t :=
  Z.lor (Z.lor (Z.lor (Z.shiftl a 24) (Z.shiftl r 16)) (Z.shiftl g 8)) b.

Definition r (p : t) : Z := Z.land (Z.shiftr p 16) 255.
Definition g (p : t) : Z := Z.land (Z.shiftr p 8) 255.
Definition b (p : t) : Z := Z.land p 255.
Definition a (p : t) : Z := Z.shiftr p 24.

(** [operator==] and [operator!=] *)
Definition eqb (p1 p2 : t) : bool := Z.eqb p1 p2.
Definition neqb (p1 p2 : t) : bool := negb (Z.eqb p1 p2).

End Pixel.

(** ** Rect *)

Module Rect.

Record t : Type := mk { x0 : Z; y0 : Z; x1 : Z; y1 : Z }.

(** [Rect()] *)
Definition zero : t := mk 0 0 0 0.

Definition width (r : t) : Z := Int.sub (x1 r) (x0 r).
Definition height (r : t) : Z := Int.sub (y1 r) (y0 r).
Definition centerX (r : t) : Z := Int.add (x0 r) (Int.div (width r) 2).
Definition centerY (r : t) : Z := Int.add (y0 r) (Int.div (height r) 2).

Definition contains (r : t) (x y : Z) : bool :=
  (x0 r <=? x) && (x <? x1 r) && (y0 r <=? y) && (y <? y1 r).

(** [void add(const Rect& other)]: the receiver after the call. *)
Definition add (self other : t) : t :=
  mk (Z.min (x0 other) (x0 self)) (Z.min (y0 other) (y0 self))
     (Z.max (x1 other) (x1 self)) (Z.max (y1 other) (y1 self)).

(** [operator==] *)
Definition eqb (r1 r2 : t) : bool :=
  (x0 r1 =? x0 r2) && (y0 r1 =? y0 r2) && (x1 r1 =? x1 r2) && (y1 r1 =? y1 r2).

(** [operator!=] *)
Definition neqb (r1 r2 : t) : bool :=
  negb (x0 r1 =? x0 r2) || negb (y0 r1 =? y0 r2)
  || negb (x1 r1 =? x1 r2) || negb (y1 r1 =? y1 r2).

Definition set_x0 (r : t) (v : Z) : t := mk v (y0 r) (x1 r) (y1 r).
Definition set_y0 (r : t) (v : Z) : t := mk (x0 r) v (x1 r) (y1 r).
Definition set_x1 (r : t) (v : Z) : t := mk (x0 r) (y0 r) v (y1 r).
Definition set_y1 (r : t) (v : Z) : t := mk (x0 r) (y0 r) (x1 r) v.

End Rect.

(** ** The frame source and the control sink *)

(** [GameFrame::getPixel] of the raster that is current after [next()]. *)
Definition GameFrame : Type := Z -> Z -> Pixel.t.

(** What the game writes: calls on [GameControls], [GameFrame::savePng], and
    the lines it sends to [cerr]. *)
Inductive Event : Type :=
| CtlFire
| CtlMove (x y : Z)
| CtlFocus (x y : Z)
| SavePng (path : string)
| LogFire (frameCount ignoredCount : Z)
| LogGameStarted (frameCount : Z)
| LogGameField (frameCount : Z) (field : Rect.t)
| LogGameStopped (frameCount : Z)
| LogNoBall.

(** The fuel monad: [None] is a loop that ran out of fuel. *)
Definition bind {A B : Type} (m : option A) (k : A -> option B) : option B :=
  match m with
  | Some a => k a
  | None => None
  end.

Notation "' p <- m ;; k" := (bind m (fun p => k))
  (at level 61, p pattern, m at next level, right associativity).

(** [for (int i = lo; i < hi; ++i) if (p i) return true; return false;] *)
Fixpoint anyFrom (n : nat) (i : Z) (p : Z -> bool) : bool :=
  match n with
  | O => false
  | S n' => p i || anyFrom n' (i + 1) p
  end.

Definition anyInRange (lo hi : Z) (p : Z -> bool) : bool :=
  anyFrom (Z.to_nat (hi - lo)) lo p.

(** ** The private methods of [Game] that read only [width] and [height] *)

Definition fieldColor : Pixel.t := Pixel.make 246 249 251 0.
Definition ballColor : Pixel.t := Pixel.make 81 61 44 0.

Section Screen.

Variables width height : Z.

Definition limit (r : Rect.t) : Rect.t :=
  let nx0 := Z.min (Rect.x1 r) (Z.min width (Z.max 0 (Rect.x0 r))) in
  let ny0 := Z.min (Rect.y1 r) (Z.min height (Z.max 0 (Rect.y0 r))) in
  let nx1 := Z.max nx0 (Z.min width (Z.max 0 (Rect.x1 r))) in
  let ny1 := Z.max ny0 (Z.min height (Z.max 0 (Rect.y1 r))) in
  Rect.mk nx0 ny0 nx1 ny1.

(** [bool shrink(Rect& r)]: the return value and [r] after the call. *)
Definition shrink (r : Rect.t) : bool * Rect.t :=
  let r' := limit (Rect.mk (Int.add (Rect.x0 r) 1) (Int.add (Rect.y0 r) 1)
                           (Int.sub (Rect.x1 r) 1) (Int.sub (Rect.y1 r) 1)) in
  (negb (Rect.x0 r' =? Rect.x1 r') || negb (Rect.y0 r' =? Rect.y1 r'), r').

(** [bool expand(Rect& r)]: the return value and [r] after the call. *)
Definition expand (r : Rect.t) : bool * Rect.t :=
  let r' := limit (Rect.mk (Int.sub (Rect.x0 r) 1) (Int.sub (Rect.y0 r) 1)
                           (Int.add (Rect.x1 r) 1) (Int.add (Rect.y1 r) 1)) in
  (negb (Rect.x0 r' =? 0) || negb (Rect.y0 r' =? 0)
   || negb (Rect.x1 r' =? width) || negb (Rect.y1 r' =? height), r').

Definition topContainsColor (frame : GameFrame) (r : Rect.t) (color : Pixel.t) : bool :=
  anyInRange (Rect.x0 r) (Rect.x1 r) (fun x => Pixel.eqb (frame x (Rect.y0 r)) color).

Definition bottomContainsColor (frame : GameFrame) (r : Rect.t) (color : Pixel.t) : bool :=
  anyInRange (Rect.x0 r) (Rect.x1 r) (fun x => Pixel.eqb (frame x (Rect.y1 r)) color).

Definition leftContainsColor (frame : GameFrame) (r : Rect.t) (color : Pixel.t) : bool :=
  anyInRange (Rect.y0 r) (Rect.y1 r) (fun y => Pixel.eqb (frame (Rect.x0 r) y) color).

Definition rightContainsColor (frame : GameFrame) (r : Rect.t) (color : Pixel.t) : bool :=
  anyInRange (Rect.y0 r) (Rect.y1 r) (fun y => Pixel.eqb (frame (Rect.x1 r) y) color).

(** One turn of the body of the [do ... while] of [findColorBounds]: [r1] at
    the end of the body, from [r1] at its start (which the body saves as
    [r0]). *)
Definition boundsPass (frame : GameFrame) (color : Pixel.t) (r0 : Rect.t) : Rect.t :=
  let r1 := r0 in
  let r1 := Rect.set_x0 r1 (Z.max 0 (Int.sub (Rect.x0 r1) 1)) in
  let r1 := if leftContainsColor frame r1 color then r1
            else Rect.set_x0 r1 (Rect.x0 r0) in
  let r1 := Rect.set_y0 r1 (Z.max 0 (Int.sub (Rect.y0 r1) 1)) in
  let r1 := if topContainsColor frame r1 color then r1
            else Rect.set_y0 r1 (Rect.y0 r0) in
  let r1 := Rect.set_x1 r1 (Z.min (Int.sub width 1) (Int.add (Rect.x1 r1) 1)) in
  let r1 := if rightContainsColor frame r1 color then r1
            else Rect.set_x1 r1 (Rect.x1 r0) in
  let r1 := Rect.set_y1 r1 (Z.min (Int.sub height 1) (Int.add (Rect.y1 r1) 1)) in
  let r1 := if bottomContainsColor frame r1 color then r1
            else Rect.set_y1 r1 (Rect.y1 r0) in
  r1.

(** The [do ... while (r0 != r1)]: the value of [r0] at exit. *)
Fixpoint boundsLoop (fuel : nat) (frame : GameFrame) (color : Pixel.t)
  (r1 : Rect.t) : option Rect.t :=
  match fuel with
  | O => None
  | S fuel' =>
      let r0 := r1 in
      let r1 := boundsPass frame color r0 in
      if Rect.neqb r0 r1 then boundsLoop fuel' frame color r1 else Some r0
  end.

(** How far a side can still travel; a side at the far end of the [int]
    range wraps in its first move and may then cross the whole range. *)
Definition lowSlack (v : Z) : Z :=
  if v =? Int.min_signed then 2147483648
  else if v <? 0 then 1 else v.

Definition highSlack (bound v : Z) : Z :=
  if v =? Int.max_signed then 4294967296
  else if bound <? v then 1 else bound - v.

Definition boundsFuel (r : Rect.t) : nat :=
  S (Z.to_nat (lowSlack (Rect.x0 r) + lowSlack (Rect.y0 r)
               + highSlack (Int.sub width 1) (Rect.x1 r)
               + highSlack (Int.sub height 1) (Rect.y1 r))).

(** [bool findColorBounds(const GameFrame&, Rect& rect, const Pixel&)]: the
    return value and [rect] after the call. *)
Definition findColorBounds (frame : GameFrame) (rect : Rect.t) (color : Pixel.t)
  : option (bool * Rect.t) :=
  ' r0 <- boundsLoop (boundsFuel rect) frame color rect ;;
  if Rect.neqb rect r0 then Some (true, r0) else Some (false, rect).

Definition isBallSurrounded (frame : GameFrame) (ball : Rect.t) : bool :=
  let f := ball in
  let f := snd (expand f) in
  let f := snd (expand f) in
  let f := snd (expand f) in
  Pixel.neqb (frame (Rect.centerX f) (Rect.y0 f)) fieldColor
  && Pixel.neqb (frame (Rect.centerX f) (Rect.y1 f)) fieldColor
  && Pixel.neqb (frame (Rect.x0 f) (Rect.centerY f)) fieldColor
  && Pixel.neqb (frame (Rect.x1 f) (Rect.centerY f)) fieldColor.

(** The shape test of [checkForBall] on the rectangle the finder left in
    [ball]. *)
Definition ballCorners (frame : GameFrame) (ball : Rect.t) : bool :=
  Pixel.neqb (frame (Rect.x0 ball) (Rect.y0 ball)) ballColor
  && Pixel.neqb (frame (Rect.x1 ball) (Rect.y0 ball)) ballColor
  && Pixel.neqb (frame (Rect.x0 ball) (Rect.y1 ball)) ballColor
  && Pixel.neqb (frame (Rect.x1 ball) (Rect.y1 ball)) ballColor.

Definition ballEdges (frame : GameFrame) (ball : Rect.t) : bool :=
  let w := Rect.width ball in
  let h := Rect.height ball in
  Pixel.eqb (frame (Int.add (Rect.x0 ball) (Int.div w 2)) (Int.add (Rect.y0 ball) 1)) ballColor
  && Pixel.eqb (frame (Int.add (Rect.x0 ball) (Int.div w 2)) (Int.sub (Rect.y1 ball) 1)) ballColor
  && Pixel.eqb (frame (Int.add (Rect.x0 ball) 1) (Int.add (Rect.y0 ball) (Int.div h 2))) ballColor
  && Pixel.eqb (frame (Int.sub (Rect.x1 ball) 1) (Int.add (Rect.y0 ball) (Int.div h 2))) ballColor.

(** [bool checkForBall(const GameFrame&, int x, int y, Rect& ball)]: the
    return value and [ball] after the call. *)
Definition checkForBall (frame : GameFrame) (x y : Z) (ball : Rect.t)
  : option (bool * Rect.t) :=
  if Pixel.neqb (frame x y) ballColor then Some (false, ball)
  else
    let ball := Rect.mk x y (Int.add x 1) (Int.add y 1) in
    ' (changed, ball) <- findColorBounds frame ball ballColor ;;
    if changed then
      let w := Rect.width ball in
      let h := Rect.height ball in
      if (4 <? w) && (4 <? h) && (w =? h) then
        if ballCorners frame ball && ballEdges frame ball
        then Some (true, ball)
        else Some (false, ball)
      else Some (false, ball)
    else Some (false, ball).

End Screen.

(** ** Game *)

Module Game.

Record t : Type := mk {
  width : Z;
  height : Z;
  screen : Rect.t;
  ball : Rect.t;
  field : Rect.t;
  frameCount : Z;
  lastFire : Z;
  lastBall : Z;
  lastBallMove : Z;
  deadzoneFrames : Z;
  ignoredCount : Z;
  hasFired : bool
}.

Definition set_ball (g : t) (v : Rect.t) : t :=
  mk (width g) (height g) (screen g) v (field g) (frameCount g) (lastFire g)
     (lastBall g) (lastBallMove g) (deadzoneFrames g) (ignoredCount g) (hasFired g).

Definition set_field (g : t) (v : Rect.t) : t :=
  mk (width g) (height g) (screen g) (ball g) v (frameCount g) (lastFire g)
     (lastBall g) (lastBallMove g) (deadzoneFrames g) (ignoredCount g) (hasFired g).

Definition set_frameCount (g : t) (v : Z) : t :=
  mk (width g) (height g) (screen g) (ball g) (field g) v (lastFire g)
     (lastBall g) (lastBallMove g) (deadzoneFrames g) (ignoredCount g) (hasFired g).

Definition set_lastFire (g : t) (v : Z) : t :=
  mk (width g) (height g) (screen g) (ball g) (field g) (frameCount g) v
     (lastBall g) (lastBallMove g) (deadzoneFrames g) (ignoredCount g) (hasFired g).

Definition set_lastBall (g : t) (v : Z) : t :=
  mk (width g) (height g) (screen g) (ball g) (field g) (frameCount g) (lastFire g)
     v (lastBallMove g) (deadzoneFrames g) (ignoredCount g) (hasFired g).

Definition set_lastBallMove (g : t) (v : Z) : t :=
  mk (width g) (height g) (screen g) (ball g) (field g) (frameCount g) (lastFire g)
     (lastBall g) v (deadzoneFrames g) (ignoredCount g) (hasFired g).

Definition set_ignoredCount (g : t) (v : Z) : t :=
  mk (width g) (height g) (screen g) (ball g) (field g) (frameCount g) (lastFire g)
     (lastBall g) (lastBallMove g) (deadzoneFrames g) v (hasFired g).

Definition set_hasFired (g : t) (v : bool) : t :=
  mk (width g) (height g) (screen g) (ball g) (field g) (frameCount g) (lastFire g)
     (lastBall g) (lastBallMove g) (deadzoneFrames g) (ignoredCount g) v.

(** [Game(GameControls&, int width, int height, int deadzoneFrames)];
    [t0] and [t1] are the two readings of [time(NULL)]. *)
Definition create (width height deadzoneFrames t0 t1 : Z) : t :=
  mk width height (Rect.mk 0 0 width height) (Rect.mk 0 0 0 0) (Rect.mk 0 0 0 0)
     0 0 t0 t1 deadzoneFrames 0 false.

(** [a || b] on calls that also update the candidate rectangle. *)
Definition orElse (m : option (bool * Rect.t))
  (k : Rect.t -> option (bool * Rect.t)) : option (bool * Rect.t) :=
  ' (found, b) <- m ;;
  if found then Some (true, b) else k b.

Section FindBall.

Variable g : t.
Variable frame : GameFrame.
Variable zone : Rect.t.

Definition check : Z -> Z -> Rect.t -> option (bool * Rect.t) :=
  checkForBall (width g) (height g) frame.

(** The four probes at the edge midpoints of the last known box; each
    probe reads the box as the probes before it left it. *)
Definition reacquire (b : Rect.t) : option (bool * Rect.t) :=
  orElse (orElse (orElse
    (check (Rect.centerX b) (Rect.y0 b) b)
    (fun b => check (Rect.x0 b) (Rect.centerY b) b))
    (fun b => check (Rect.centerX b) (Rect.y1 b) b))
    (fun b => check (Rect.x1 b) (Rect.centerY b) b).

(** The inner [for] of the grid scan, from column [x] of row [y]. *)
Fixpoint scanRow (fuel : nat) (y x : Z) (b : Rect.t) : option (bool * Rect.t) :=
  match fuel with
  | O => None
  | S fuel' =>
      if x <? Rect.x1 zone then
        ' (found, b) <- (if negb (Rect.contains b x y) then check x y b
                         else Some (false, b)) ;;
        if found then Some (true, b)
        else scanRow fuel' y
               (Int.add x (Z.max 1 (Int.div (Rect.width (ball g)) 2))) b
      else Some (false, b)
  end.

Definition rowFuel : nat := S (Z.to_nat (Rect.x1 zone - Rect.x0 zone)).

(** The outer [for] of the grid scan, from row [y]. *)
Fixpoint scanRows (fuel : nat) (y : Z) (b : Rect.t) : option (bool * Rect.t) :=
  match fuel with
  | O => None
  | S fuel' =>
      if y <? Rect.y1 zone then
        ' (found, b) <- scanRow rowFuel y (Rect.x0 zone) b ;;
        if found then Some (true, b)
        else scanRows fuel' (Int.add y (Z.max 1 (Int.div (Rect.height (ball g)) 2))) b
      else Some (false, b)
  end.

Definition rowsFuel : nat := S (Z.to_nat (Rect.y1 zone - Rect.y0 zone)).

(** [bool findBall(const GameFrame&, const Rect& zone)]; [now] is the
    reading of [time(NULL)] taken when a ball is found. *)
Definition findBall (now : Z) : option (bool * t) :=
  ' (found, b) <- reacquire (ball g) ;;
  if found then
    let g1 := if Rect.neqb (ball g) b then set_lastBallMove g now else g in
    Some (true, set_lastBall (set_ball g1 b) now)
  else
    let b := ball g in
    ' (found, b) <- scanRows rowsFuel (Rect.y0 zone) b ;;
    if found then
      Some (true, set_lastBallMove (set_lastBall (set_ball g b) now) now)
    else Some (false, g).

End FindBall.

Definition haveField (g : t) : bool :=
  let unit := Z.max 4 (Rect.width (ball g)) in
  (Int.mul unit 10 <? Rect.width (field g))
  && (Int.mul unit 10 <? Rect.height (field g))
  && (Rect.width (field g) <? Int.add (Rect.height (field g)) (Int.div unit 4))
  && (Int.sub (Rect.height (field g)) (Int.div unit 4) <? Rect.width (field g)).

Definition expandField (g : t) (frame : GameFrame) (now : Z)
  : option (bool * t * list Event) :=
  ' (found, g) <- findBall g frame (Rect.mk 0 0 (width g) (height g)) now ;;
  if negb found then
    if Rect.x1 (field g) =? 0
    then Some (false, g, [LogNoBall; SavePng "no-ball-proof.png"])
    else Some (true, g, [])
  else
    if Rect.x1 (field g) =? 0
    then Some (true, set_field g (ball g), [])
    else Some (true, set_field g (Rect.add (field g) (ball g)), []).

Definition addFieldSafetyMargin (g : t) : t :=
  set_field g
    (Nat.iter (Z.to_nat (Rect.width (ball g)))
              (fun f => snd (expand (width g) (height g) f)) (field g)).

Definition fire (g : t) : bool * t * list Event :=
  if deadzoneFrames g <=? Int.sub (frameCount g) (lastFire g) then
    (true,
     set_lastFire (set_ignoredCount g 0) (frameCount g),
     [CtlFire; LogFire (frameCount g) (ignoredCount g)])
  else
    (false, set_ignoredCount g (Int.add (ignoredCount g) 1), []).

(** [bool step(GameFrame& frame)]; [frame] is the raster after
    [frame.next()], [tFind] the clock reading inside [findBall], [tStep] the
    reading taken by [step] itself. *)
Definition step (g : t) (frame : GameFrame) (tFind tStep : Z)
  : option (bool * t * list Event) :=
  let hadField := haveField g in
  ' (keepPlaying, g, ev) <-
    (if negb hadField then
       let lastField := field g in
       ' (keepPlaying, g, ev) <- expandField g frame tFind ;;
       if keepPlaying then
         if Rect.eqb lastField (field g) && Rect.eqb (field g) (ball g) then
           let ev1 := [CtlFocus (Rect.centerX (ball g)) (Rect.centerY (ball g));
                       CtlFire] in
           let g := set_field g (snd (expand (width g) (height g) (field g))) in
           Some (keepPlaying, g, ev ++ ev1 ++ [LogGameStarted (frameCount g)])
         else if haveField g then
           let g := addFieldSafetyMargin g in
           Some (keepPlaying, g,
                 ev ++ [CtlMove (Rect.x1 (field g)) (Rect.y1 (field g));
                        LogGameField (frameCount g) (field g)])
         else Some (keepPlaying, g, ev)
       else Some (keepPlaying, g, ev)
     else
       ' (found, g) <- findBall g frame (field g) tFind ;;
       if found then
         let ballBox := snd (expand (width g) (height g) (ball g)) in
         let '(g, ev) :=
           if isBallSurrounded (width g) (height g) frame ballBox then
             if negb (hasFired g) then
               let '(fired, g, ev) := fire g in (set_hasFired g fired, ev)
             else (g, [])
           else (set_hasFired g false, []) in
         let keepPlaying := Clock.sub tStep (lastBallMove g) <? 2 in
         Some (keepPlaying, g,
               ev ++ (if keepPlaying then [] else [LogGameStopped (frameCount g)]))
       else
         Some (Clock.sub tStep (lastBall g) <? 2, g, [])) ;;
  Some (keepPlaying, set_frameCount g (Int.add (frameCount g) 1), ev).

End Game.

(** ** Notions used in the statements *)

(** The [++frameCount] that ends every [step]. *)
Definition nextFrame (g : Game.t) : Game.t :=
  Game.set_frameCount g (Int.add (Game.frameCount g) 1).

(** The whole screen, the zone [expandField] searches. *)
Definition wholeScreen (g : Game.t) : Rect.t :=
  Rect.mk 0 0 (Game.width g) (Game.height g).

(** [n] one-pixel expansions, each clamped to the screen. *)
Definition expansions (width height : Z) (n : nat) (r : Rect.t) : Rect.t :=
  Nat.iter n (fun f => snd (expand width height f)) r.

(** All four edge midpoints of [f] differ from the field colour. *)
Definition edgeMidpointsOffField (frame : GameFrame) (f : Rect.t) : Prop :=
  frame (Rect.centerX f) (Rect.y0 f) <> fieldColor
  /\ frame (Rect.centerX f) (Rect.y1 f) <> fieldColor
  /\ frame (Rect.x0 f) (Rect.centerY f) <> fieldColor
  /\ frame (Rect.x1 f) (Rect.centerY f) <> fieldColor.

(** One firing attempt on the current frame, then the [++frameCount] that
    ends the frame. *)
Definition fireOnFrame (g : Game.t) : bool * list Event * Game.t :=
  let '(fired, g, ev) := Game.fire g in
  (fired, ev, Game.set_frameCount g (Int.add (Game.frameCount g) 1)).

(** One attempt on each of [n] consecutive frames: per frame whether the
    signal was dispatched and what was written, and the game at the end. *)
Fixpoint fireOnFrames (n : nat) (g : Game.t) : list (bool * list Event) * Game.t :=
  match n with
  | O => ([], g)
  | S n' =>
      let '(fired, ev, g) := fireOnFrame g in
      let '(rest, g) := fireOnFrames n' g in
      ((fired, ev) :: rest, g)
  end.

(** [step] on each input in turn, whatever it returns: the return values and
    the game at the end.  An input is the raster and the two clock
    readings. *)
Fixpoint steps (inputs : list (GameFrame * Z * Z)) (g : Game.t)
  : option (list bool * Game.t) :=
  match inputs with
  | [] => Some ([], g)
  | (frame, tFind, tStep) :: rest =>
      ' (keepPlaying, g, _) <- Game.step g frame tFind tStep ;;
      ' (more, g) <- steps rest g ;;
      Some (keepPlaying :: more, g)
  end.

(** The four sides of a pass of [findColorBounds], one at a time. *)
Section Sides.

Variables width height : Z.
Variable frame : GameFrame.
Variable color : Pixel.t.

Definition growLeft (r : Rect.t) : Rect.t :=
  let r' := Rect.set_x0 r (Z.max 0 (Int.sub (Rect.x0 r) 1)) in
  if leftContainsColor frame r' color then r' else r.

Definition growTop (r : Rect.t) : Rect.t :=
  let r' := Rect.set_y0 r (Z.max 0 (Int.sub (Rect.y0 r) 1)) in
  if topContainsColor frame r' color then r' else r.

Definition growRight (r : Rect.t) : Rect.t :=
  let r' := Rect.set_x1 r (Z.min (Int.sub width 1) (Int.add (Rect.x1 r) 1)) in
  if rightContainsColor frame r' color then r' else r.

Definition growBottom (r : Rect.t) : Rect.t :=
  let r' := Rect.set_y1 r (Z.min (Int.sub height 1) (Int.add (Rect.y1 r) 1)) in
  if bottomContainsColor frame r' color then r' else r.

End Sides.

(** The finder on a solid block: the block has its first column at [col0],
    its first row at [row0], and is [w] wide and [h] high; the seed pixel is
    [(sx, sy)]. *)
Section BlockGeometry.

Variables col0 row0 w h : Z.
Variables sx sy : Z.

Definition blockSeed : Rect.t := Rect.mk sx sy (sx + 1) (sy + 1).

(** Where the finder stops: the first column and row of the block, and its
    last column and row unless the seed rectangle already reaches past
    them. *)
Definition blockFound : Rect.t :=
  Rect.mk col0 row0 (Z.max (sx + 1) (col0 + w - 1)) (Z.max (sy + 1) (row0 + h - 1)).

(** What holds of the rectangle at every turn of the loop, and how far it
    is from where it stops. *)
Definition blockInv (r : Rect.t) : Prop :=
  col0 <= Rect.x0 r <= sx /\ row0 <= Rect.y0 r <= sy
  /\ sx + 1 <= Rect.x1 r <= Rect.x1 blockFound
  /\ sy + 1 <= Rect.y1 r <= Rect.y1 blockFound.

Definition blockDist (r : Rect.t) : Z :=
  (Rect.x0 r - col0) + (Rect.y0 r - row0)
  + (Rect.x1 blockFound - Rect.x1 r) + (Rect.y1 blockFound - Rect.y1 r).

(** A pass moves every side that has not reached its end by one pixel. *)
Definition blockNext (r : Rect.t) : Rect.t :=
  Rect.mk (if col0 <? Rect.x0 r then Rect.x0 r - 1 else Rect.x0 r)
          (if row0 <? Rect.y0 r then Rect.y0 r - 1 else Rect.y0 r)
          (if Rect.x1 r <? col0 + w - 1 then Rect.x1 r + 1 else Rect.x1 r)
          (if Rect.y1 r <? row0 + h - 1 then Rect.y1 r + 1 else Rect.y1 r).

End BlockGeometry.

(** The values a C++ [int] can hold, and the total travel left to the four
    sides of a rectangle. *)
Definition rectInRange (r : Rect.t) : Prop :=
  Int.in_range (Rect.x0 r) /\ Int.in_range (Rect.y0 r)
  /\ Int.in_range (Rect.x1 r) /\ Int.in_range (Rect.y1 r).

Definition boundsSlack (width height : Z) (r : Rect.t) : Z :=
  lowSlack (Rect.x0 r) + lowSlack (Rect.y0 r)
  + highSlack (Int.sub width 1) (Rect.x1 r)
  + highSlack (Int.sub height 1) (Rect.y1 r).

(** The scan of [findBall] over [zone] stays inside the [int] range. *)
Definition scanFits (g : Game.t) (zone : Rect.t) : Prop :=
  Int.in_range (Rect.x0 zone) /\ Int.in_range (Rect.y0 zone)
  /\ Rect.x1 zone + Z.max 1 (Int.div (Rect.width (Game.ball g)) 2) <= Int.max_signed
  /\ Rect.y1 zone + Z.max 1 (Int.div (Rect.height (Game.ball g)) 2) <= Int.max_signed.

(** ** Rasters and games used as examples *)

(** A raster that shows the field colour everywhere. *)
Definition emptyFrame : GameFrame := fun _ _ => fieldColor.

(** A raster with a solid block of [color] on the field colour. *)
Definition blockFrame (color : Pixel.t) (col0 row0 w h : Z) : GameFrame :=
  fun x y =>
    if (col0 <=? x) && (x <? col0 + w) && (row0 <=? y) && (y <? row0 + h)
    then color else fieldColor.

(** A round token on the field: the 6 x 6 square of columns and rows 20..25
    without its four corner pixels, and four dark marker pixels [d] pixels
    outside the middle of each side of that square. *)
Definition inToken (x y : Z) : bool :=
  (20 <=? x) && (x <=? 25) && (20 <=? y) && (y <=? 25)
  && negb (((x =? 20) || (x =? 25)) && ((y =? 20) || (y =? 25))).

Definition markerColor : Pixel.t := Pixel.make 0 0 0 0.

Definition tokenFrame (d : Z) : GameFrame :=
  fun x y =>
    if inToken x y then ballColor
    else if ((x =? 22) && ((y =? 20 - d) || (y =? 25 + d)))
            || ((y =? 22) && ((x =? 20 - d) || (x =? 25 + d)))
         then markerColor
         else fieldColor.

(** A game in the ACTIVE state that last saw the token where it is. *)
Definition activeGame : Game.t :=
  Game.mk 64 64 (Rect.mk 0 0 64 64) (Rect.mk 20 20 25 25) (Rect.mk 0 0 60 60)
          10 0 100 100 1 0 false.

(** A game in BOOTSTRAP that saw the token once, so that its field is the
    ball box. *)
Definition startedGame : Game.t :=
  Game.mk 24 24 (Rect.mk 0 0 24 24) (Rect.mk 4 4 9 9) (Rect.mk 4 4 9 9)
          1 0 100 100 1 0 false.

(** A game in BOOTSTRAP whose field has grown past the ball box. *)
Definition waitingGame : Game.t :=
  Game.mk 24 24 (Rect.mk 0 0 24 24) (Rect.mk 4 4 9 9) (Rect.mk 3 3 10 10)
          2 0 100 100 1 0 false.

(** ** Notions used in the further properties *)

(** [a] lies inside [b], side by side. *)
Definition within (a b : Rect.t) : Prop :=
  Rect.x0 b <= Rect.x0 a /\ Rect.y0 b <= Rect.y0 a
  /\ Rect.x1 a <= Rect.x1 b /\ Rect.y1 a <= Rect.y1 b.

(** [r] is ordered and lies on the screen. *)
Definition onScreen (width height : Z) (r : Rect.t) : Prop :=
  0 <= Rect.x0 r <= Rect.x1 r /\ Rect.x1 r <= width
  /\ 0 <= Rect.y0 r <= Rect.y1 r /\ Rect.y1 r <= height.

(** [r] with every side moved [n] pixels outwards, stopped at the border of
    the screen. *)
Definition grown (width height n : Z) (r : Rect.t) : Rect.t :=
  Rect.mk (Z.max 0 (Rect.x0 r - n)) (Z.max 0 (Rect.y0 r - n))
          (Z.min width (Rect.x1 r + n)) (Z.min height (Rect.y1 r + n)).

(** The loop of [main], [while (game.step(frame)) ...], over the rasters and
    clock readings at hand: whether the game still plays when they run out,
    the game, and everything written. *)
Fixpoint play (inputs : list (GameFrame * Z * Z)) (g : Game.t)
  : option (bool * Game.t * list Event) :=
  match inputs with
  | [] => Some (true, g, [])
  | (frame, tFind, tStep) :: rest =>
      ' (keepPlaying, g, ev) <- Game.step g frame tFind tStep ;;
      if keepPlaying then
        ' (still, g, ev') <- play rest g ;;
        Some (still, g, ev ++ ev')
      else Some (false, g, ev)
  end.

(** The finder run from [start]: what holds of the rectangle at every turn
    of the loop.  It is a rectangle of [int]s that covers [start] and whose
    sides are on pixel lines of the screen, and every side that has left its
    place in [start] rests on a line on which the rectangle has a pixel of
    the colour. *)
Definition growthInv (width height : Z) (start r : Rect.t) : Prop :=
  rectInRange r /\ within start r
  /\ 0 <= Rect.x0 r /\ 0 <= Rect.y0 r
  /\ Rect.x1 r <= width - 1 /\ Rect.y1 r <= height - 1.

Definition touchInv (frame : GameFrame) (color : Pixel.t) (start r : Rect.t) : Prop :=
  (Rect.x0 r = Rect.x0 start
   \/ exists y, Rect.y0 r <= y < Rect.y1 r /\ frame (Rect.x0 r) y = color)
  /\ (Rect.y0 r = Rect.y0 start
      \/ exists x, Rect.x0 r <= x < Rect.x1 r /\ frame x (Rect.y0 r) = color)
  /\ (Rect.x1 r = Rect.x1 start
      \/ exists y, Rect.y0 r <= y < Rect.y1 r /\ frame (Rect.x1 r) y = color)
  /\ (Rect.y1 r = Rect.y1 start
      \/ exists x, Rect.x0 r <= x < Rect.x1 r /\ frame x (Rect.y1 r) = color).

(** The shape test of [checkForBall]: more than 4 wide and high, square,
    corners not of the ball colour, inset edge midpoints of the ball
    colour. *)
Definition ballShape (frame : GameFrame) (r : Rect.t) : Prop :=
  4 < Rect.width r /\ 4 < Rect.height r /\ Rect.width r = Rect.height r
  /\ ballCorners frame r = true /\ ballEdges frame r = true.

(** A game in BOOTSTRAP whose field has just become large enough, away from
    the border of the screen. *)
Definition fieldGame : Game.t :=
  Game.mk 200 200 (Rect.mk 0 0 200 200) (Rect.mk 60 60 65 65) (Rect.mk 60 60 120 120)
          40 0 100 100 1 0 false.

(** ** XImageFrame::savePng: the pixel buffer *)

(** [pixels[i] = image->f.get_pixel(image, x, y) | 0xff000000], stored in a
    [uint32_t]. *)
Definition pngPixel (raw : Z) : Z :=
  Z.land (Z.lor raw 4278190080) 4294967295.




(** * Properties *)

(** ** Machine integers and rectangles *)

Lemma int_wrap_small (z : Z) : Int.in_range z -> Int.wrap z = z.
Proof.
  unfold Int.in_range, Int.min_signed, Int.max_signed, Int.wrap. intros H.
  rewrite Z.mod_small; lia.
Qed.

Lemma int_wrap_range (z : Z) : Int.in_range (Int.wrap z).
Proof.
  unfold Int.in_range, Int.min_signed, Int.max_signed, Int.wrap.
  pose proof (Z.mod_pos_bound (z + 2147483648) 4294967296 ltac:(lia)). lia.
Qed.

Lemma int_succ_sub (z : Z) : Int.sub (Int.add z 1) z = 1.
Proof.
  unfold Int.sub, Int.add, Int.wrap.
  replace ((z + 1 + 2147483648) mod 4294967296 - 2147483648 - z + 2147483648)
    with ((z + 1 + 2147483648) mod 4294967296 - z) by lia.
  rewrite Zminus_mod, Zmod_mod, <- Zminus_mod.
  replace (z + 1 + 2147483648 - z) with 2147483649 by lia.
  reflexivity.
Qed.

Lemma clock_wrap_small (z : Z) : Clock.in_range z -> Clock.wrap z = z.
Proof.
  unfold Clock.in_range, Clock.wrap. intros H. rewrite Z.mod_small; lia.
Qed.

Lemma rect_eqb_eq (r1 r2 : Rect.t) : Rect.eqb r1 r2 = true <-> r1 = r2.
Proof.
  destruct r1, r2; unfold Rect.eqb; simpl.
  rewrite !andb_true_iff, !Z.eqb_eq. split.
  - intros [[[-> ->] ->] ->]. reflexivity.
  - intros H. inversion H. auto.
Qed.

Lemma rect_neqb_negb_eqb (r1 r2 : Rect.t) : Rect.neqb r1 r2 = negb (Rect.eqb r1 r2).
Proof.
  unfold Rect.neqb, Rect.eqb. rewrite !negb_andb. reflexivity.
Qed.

Lemma rect_neqb_false (r1 r2 : Rect.t) : Rect.neqb r1 r2 = false <-> r1 = r2.
Proof.
  rewrite rect_neqb_negb_eqb, negb_false_iff. apply rect_eqb_eq.
Qed.

Ltac int_range := unfold Int.in_range, Int.min_signed, Int.max_signed in *; lia.

Ltac int_small :=
  unfold Int.add, Int.sub in *;
  repeat (rewrite int_wrap_small by int_range).

Lemma rect_eq (a b : Rect.t) :
  Rect.x0 a = Rect.x0 b -> Rect.y0 a = Rect.y0 b ->
  Rect.x1 a = Rect.x1 b -> Rect.y1 a = Rect.y1 b -> a = b.
Proof. destruct a, b; simpl; intros; subst; reflexivity. Qed.

(** ** Rect::add *)

(** C9: [Rect::add] is commutative and associative, and the union of a
    rectangle with itself is that rectangle. *)
Theorem Rect_add_comm_assoc_idem :
  (forall a b, Rect.add a b = Rect.add b a)
  /\ (forall a b c, Rect.add (Rect.add a b) c = Rect.add a (Rect.add b c))
  /\ (forall a, Rect.add a a = a).
Proof.
  repeat split.
  - intros a b. apply rect_eq; simpl; lia.
  - intros a b c. apply rect_eq; simpl; lia.
  - intros a. apply rect_eq; simpl; lia.
Qed.

(** ** limit *)

(** One axis of [limit]: the near side [a] and the far side [c] against the
    screen extent [w]. *)
Lemma limit_axis (w a c : Z) :
  0 <= w -> 0 <= c ->
  let n0 := Z.min c (Z.min w (Z.max 0 a)) in
  let n1 := Z.max n0 (Z.min w (Z.max 0 c)) in
  (0 <= n0 <= n1 /\ n1 <= w)
  /\ Z.min n1 (Z.min w (Z.max 0 n0)) = n0
  /\ Z.max n0 (Z.min w (Z.max 0 n1)) = n1.
Proof.
  intros Hw Hc n0 n1.
  assert (H0 : 0 <= n0 <= w) by (unfold n0; lia).
  assert (H1 : n0 <= n1 <= w) by (unfold n1; clearbody n0; lia).
  clearbody n0 n1. lia.
Qed.

Lemma limit_axis_ordered (w a c : Z) :
  0 <= w ->
  let n0 := Z.min c (Z.min w (Z.max 0 a)) in
  let n1 := Z.max n0 (Z.min w (Z.max 0 c)) in
  n0 <= n1 /\ 0 <= n1 <= w.
Proof.
  intros Hw n0 n1.
  assert (H0 : n0 <= w) by (unfold n0; lia).
  unfold n1; clearbody n0; lia.
Qed.

Section LimitFacts.

Variables width height : Z.
Hypothesis width_nonneg : 0 <= width.
Hypothesis height_nonneg : 0 <= height.

(** On a rectangle whose far corner is not negative, [limit] lands inside
    the screen. *)
Lemma limit_in_screen (r : Rect.t) :
  0 <= Rect.x1 r -> 0 <= Rect.y1 r ->
  let r' := limit width height r in
  0 <= Rect.x0 r' <= Rect.x1 r' /\ Rect.x1 r' <= width
  /\ 0 <= Rect.y0 r' <= Rect.y1 r' /\ Rect.y1 r' <= height.
Proof.
  intros Hx Hy. unfold limit; simpl.
  pose proof (limit_axis width (Rect.x0 r) (Rect.x1 r) width_nonneg Hx) as [Ax _].
  pose proof (limit_axis height (Rect.y0 r) (Rect.y1 r) height_nonneg Hy) as [Ay _].
  cbv zeta in Ax, Ay. tauto.
Qed.

Lemma limit_idempotent (r : Rect.t) :
  0 <= Rect.x1 r -> 0 <= Rect.y1 r ->
  limit width height (limit width height r) = limit width height r.
Proof.
  intros Hx Hy.
  pose proof (limit_axis width (Rect.x0 r) (Rect.x1 r) width_nonneg Hx)
    as [_ [Ax0 Ax1]].
  pose proof (limit_axis height (Rect.y0 r) (Rect.y1 r) height_nonneg Hy)
    as [_ [Ay0 Ay1]].
  cbv zeta in Ax0, Ax1, Ay0, Ay1.
  unfold limit; simpl. rewrite Ax0, Ay0, Ax1, Ay1. reflexivity.
Qed.

(** Whatever the rectangle, the near corner does not pass the far corner
    and the far corner is on the screen. *)
Lemma limit_ordered (r : Rect.t) :
  let r' := limit width height r in
  Rect.x0 r' <= Rect.x1 r' /\ 0 <= Rect.x1 r' <= width
  /\ Rect.y0 r' <= Rect.y1 r' /\ 0 <= Rect.y1 r' <= height.
Proof.
  unfold limit; simpl.
  pose proof (limit_axis_ordered width (Rect.x0 r) (Rect.x1 r) width_nonneg) as Ax.
  pose proof (limit_axis_ordered height (Rect.y0 r) (Rect.y1 r) height_nonneg) as Ay.
  cbv zeta in Ax, Ay. tauto.
Qed.

End LimitFacts.

(** C7: on the rectangle that [shrink] hands to [limit] for the empty
    rectangle at the origin, [limit] returns a negative near corner, and a
    second [limit] moves it. *)
Theorem limit_negative_far_corner :
  limit 10 10 (Rect.mk 1 1 (-1) (-1)) = Rect.mk (-1) (-1) 0 0
  /\ limit 10 10 (limit 10 10 (Rect.mk 1 1 (-1) (-1))) = Rect.mk 0 0 0 0
  /\ snd (shrink 10 10 Rect.zero) = Rect.mk (-1) (-1) 0 0.
Proof. vm_compute. repeat split. Qed.

(** ** expand and shrink *)

(** Away from the screen border and from the ends of the [int] range the
    clamp of [expand] and of [shrink] does nothing. *)
Lemma expand_inside (width height : Z) (r : Rect.t) :
  width <= Int.max_signed -> height <= Int.max_signed ->
  0 < Rect.x0 r <= Rect.x1 r -> Rect.x1 r < width ->
  0 < Rect.y0 r <= Rect.y1 r -> Rect.y1 r < height ->
  snd (expand width height r)
  = Rect.mk (Rect.x0 r - 1) (Rect.y0 r - 1) (Rect.x1 r + 1) (Rect.y1 r + 1).
Proof.
  intros HW HH Hx Hx1 Hy Hy1. destruct r as [a b c d]; simpl in *.
  unfold expand, limit; simpl. int_small. apply rect_eq; simpl; lia.
Qed.

Lemma shrink_inside (width height : Z) (r : Rect.t) :
  width <= Int.max_signed -> height <= Int.max_signed ->
  0 <= Rect.x0 r + 1 <= Rect.x1 r - 1 -> Rect.x1 r - 1 <= width ->
  0 <= Rect.y0 r + 1 <= Rect.y1 r - 1 -> Rect.y1 r - 1 <= height ->
  snd (shrink width height r)
  = Rect.mk (Rect.x0 r + 1) (Rect.y0 r + 1) (Rect.x1 r - 1) (Rect.y1 r - 1).
Proof.
  intros HW HH Hx Hx1 Hy Hy1. destruct r as [a b c d]; simpl in *.
  unfold shrink, limit; simpl. int_small. apply rect_eq; simpl; lia.
Qed.

(** C8 as stated fails for [shrink] then [expand] on a thin rectangle. *)
Lemma shrink_expand_thin_counterexample :
  let r := Rect.mk 5 5 6 6 in
  (0 < Rect.x0 r /\ Rect.x0 r <= Rect.x1 r /\ Rect.x1 r < 10
   /\ 0 < Rect.y0 r /\ Rect.y0 r <= Rect.y1 r /\ Rect.y1 r < 10)
  /\ snd (expand 10 10 (snd (shrink 10 10 r))) = Rect.mk 4 4 6 6
  /\ snd (expand 10 10 (snd (shrink 10 10 r))) <> r.
Proof.
  vm_compute. repeat split; discriminate.
Qed.

(** C8: on a rectangle strictly inside the screen [expand] then [shrink]
    gives the rectangle back, and so does [shrink] then [expand] when the
    rectangle is at least two pixels wide and two pixels high; with the left
    side moved onto the screen border, [expand] then [shrink] leaves the left
    side one pixel inside the border. *)
Theorem expand_shrink_round_trip (width height : Z) (r : Rect.t) :
  width <= Int.max_signed -> height <= Int.max_signed ->
  0 < Rect.x0 r <= Rect.x1 r -> Rect.x1 r < width ->
  0 < Rect.y0 r <= Rect.y1 r -> Rect.y1 r < height ->
  snd (shrink width height (snd (expand width height r))) = r
  /\ (Rect.x0 r + 2 <= Rect.x1 r -> Rect.y0 r + 2 <= Rect.y1 r ->
      snd (expand width height (snd (shrink width height r))) = r)
  /\ Rect.x0 (snd (shrink width height
                     (snd (expand width height (Rect.set_x0 r 0))))) = 1.
Proof.
  intros HW HH Hx Hx1 Hy Hy1. destruct r as [a b c d]; simpl in Hx, Hx1, Hy, Hy1.
  cbn [Rect.x0 Rect.x1 Rect.y0 Rect.y1].
  repeat split.
  - rewrite expand_inside by (simpl; lia). rewrite shrink_inside by (simpl; lia).
    apply rect_eq; simpl; lia.
  - intros Hw Hh.
    rewrite shrink_inside by (simpl; lia). rewrite expand_inside by (simpl; lia).
    apply rect_eq; simpl; lia.
  - unfold Rect.set_x0; cbn [Rect.x0 Rect.x1 Rect.y0 Rect.y1].
    assert (E : snd (expand width height (Rect.mk 0 b c d))
                = Rect.mk 0 (b - 1) (c + 1) (d + 1)).
    { unfold expand, limit; simpl. int_small. apply rect_eq; simpl; lia. }
    rewrite E. rewrite shrink_inside by (simpl; lia). reflexivity.
Qed.

Lemma expand_shrink_round_trip_witness :
  let r := Rect.mk 3 3 6 7 in
  snd (shrink 10 10 (snd (expand 10 10 r))) = r
  /\ (Rect.x0 r + 2 <= Rect.x1 r -> Rect.y0 r + 2 <= Rect.y1 r ->
      snd (expand 10 10 (snd (shrink 10 10 r))) = r)
  /\ Rect.x0 (snd (shrink 10 10 (snd (expand 10 10 (Rect.set_x0 r 0))))) = 1.
Proof.
  apply (expand_shrink_round_trip 10 10 (Rect.mk 3 3 6 7));
    unfold Int.max_signed; simpl; lia.
Defined.

(** ** The fire policy *)

(** C2 as stated fails: a fresh game does not dispatch on frame 0. *)
Lemma fire_frame0_counterexample :
  fst (fst (Game.fire (Game.create 64 64 3 0 0))) = false
  /\ map fst (fst (fireOnFrames 6 (Game.create 64 64 3 0 0)))
     <> [true; false; false; true; false; false].
Proof. vm_compute. split; [reflexivity | discriminate]. Qed.

(** C2: a fresh game with [deadzoneFrames = 3] that attempts to fire on each
    of the frames 0 to 5 dispatches on frame 3 only, where the log line
    shows 3 ignored attempts, and ends with 2 ignored attempts and
    [lastFire = 3]; in general [fire] dispatches iff
    [frameCount - lastFire >= deadzoneFrames], a dispatch issues the signal,
    logs the frame and the ignored count, resets the ignored count and
    records the frame, and an ignored attempt only increments the ignored
    count. *)
Theorem fire_debounce :
  (forall w h t0 t1,
      fst (fireOnFrames 6 (Game.create w h 3 t0 t1))
      = [(false, []); (false, []); (false, []);
         (true, [CtlFire; LogFire 3 3]); (false, []); (false, [])]
      /\ Game.ignoredCount (snd (fireOnFrames 6 (Game.create w h 3 t0 t1))) = 2
      /\ Game.lastFire (snd (fireOnFrames 6 (Game.create w h 3 t0 t1))) = 3)
  /\ (forall g,
         fst (fst (Game.fire g)) = true
         <-> Game.deadzoneFrames g <= Int.sub (Game.frameCount g) (Game.lastFire g))
  /\ (forall g,
         fst (fst (Game.fire g)) = true ->
         Game.fire g
         = (true,
            Game.set_lastFire (Game.set_ignoredCount g 0) (Game.frameCount g),
            [CtlFire; LogFire (Game.frameCount g) (Game.ignoredCount g)]))
  /\ (forall g,
         fst (fst (Game.fire g)) = false ->
         Game.fire g
         = (false, Game.set_ignoredCount g (Int.add (Game.ignoredCount g) 1), [])).
Proof.
  split; [| split; [| split]].
  - intros w h t0 t1. vm_compute. repeat split.
  - intros g. unfold Game.fire.
    destruct (Z.leb_spec (Game.deadzoneFrames g)
                (Int.sub (Game.frameCount g) (Game.lastFire g))); simpl;
      split; intros; try lia; try discriminate; reflexivity.
  - intros g. unfold Game.fire.
    destruct (Game.deadzoneFrames g <=? _); simpl; [reflexivity | discriminate].
  - intros g. unfold Game.fire.
    destruct (Game.deadzoneFrames g <=? _); simpl; [discriminate | reflexivity].
Qed.

Lemma fire_debounce_witness :
  let g := Game.mk 64 64 (Rect.mk 0 0 64 64) Rect.zero Rect.zero 7 3 0 0 3 2 false in
  Game.fire g
  = (true, Game.set_lastFire (Game.set_ignoredCount g 0) 7, [CtlFire; LogFire 7 2])
  /\ Game.fire (Game.set_frameCount g 5)
     = (false, Game.set_ignoredCount (Game.set_frameCount g 5) 3, []).
Proof.
  destruct fire_debounce as [_ [_ [Hyes Hno]]]. split.
  - apply (Hyes (Game.mk 64 64 (Rect.mk 0 0 64 64) Rect.zero Rect.zero
                         7 3 0 0 3 2 false)).
    vm_compute. reflexivity.
  - apply (Hno (Game.mk 64 64 (Rect.mk 0 0 64 64) Rect.zero Rect.zero
                        5 3 0 0 3 2 false)).
    vm_compute. reflexivity.
Defined.

(** ** The region finder: general facts *)

Section FinderFacts.

Variables width height : Z.
Variable frame : GameFrame.
Variable color : Pixel.t.

(** The loop stops only on a rectangle that a pass leaves as it is. *)
Lemma boundsLoop_fixed (fuel : nat) (r r' : Rect.t) :
  boundsLoop width height fuel frame color r = Some r' ->
  boundsPass width height frame color r' = r'.
Proof.
  revert r. induction fuel as [| fuel IH]; intros r; simpl; [discriminate |].
  destruct (Rect.neqb r (boundsPass width height frame color r)) eqn:E.
  - apply IH.
  - intros H. injection H as <-. apply rect_neqb_false in E. symmetry; exact E.
Qed.

Lemma boundsLoop_at_fixed (fuel : nat) (r : Rect.t) :
  boundsPass width height frame color r = r ->
  boundsLoop width height (S fuel) frame color r = Some r.
Proof.
  intros H. simpl. rewrite H.
  replace (Rect.neqb r r) with false; [reflexivity |].
  symmetry. apply rect_neqb_false. reflexivity.
Qed.

(** More fuel does not change a result. *)
Lemma boundsLoop_more_fuel (n m : nat) (r r' : Rect.t) :
  boundsLoop width height n frame color r = Some r' -> (n <= m)%nat ->
  boundsLoop width height m frame color r = Some r'.
Proof.
  revert m r. induction n as [| n IH]; intros m r; simpl; [discriminate |].
  intros H Hle. destruct m as [| m]; [lia |]. simpl.
  destruct (Rect.neqb r (boundsPass width height frame color r)).
  - apply IH; [exact H | lia].
  - exact H.
Qed.

Lemma findColorBounds_result (rect r : Rect.t) (changed : bool) :
  findColorBounds width height frame rect color = Some (changed, r) ->
  boundsLoop width height (boundsFuel width height rect) frame color rect = Some r
  /\ changed = Rect.neqb rect r.
Proof.
  unfold findColorBounds, bind.
  destruct (boundsLoop width height _ frame color rect) as [r0 |]; [| discriminate].
  destruct (Rect.neqb rect r0) eqn:E; intros H; injection H as <- <-.
  - split; [reflexivity | symmetry; exact E].
  - apply rect_neqb_false in E. subst r0.
    split; [reflexivity |]. symmetry. apply rect_neqb_false. reflexivity.
Qed.

Lemma findColorBounds_unchanged (rect r : Rect.t) :
  findColorBounds width height frame rect color = Some (false, r) -> r = rect.
Proof.
  intros H. apply findColorBounds_result in H as [_ H].
  symmetry in H. apply rect_neqb_false in H. symmetry; exact H.
Qed.

(** A second run from the rectangle a run has reached reports no change. *)
Lemma findColorBounds_again (rect r : Rect.t) (changed : bool) :
  findColorBounds width height frame rect color = Some (changed, r) ->
  findColorBounds width height frame r color = Some (false, r).
Proof.
  intros H. apply findColorBounds_result in H as [H _].
  apply boundsLoop_fixed in H.
  unfold findColorBounds, boundsFuel. rewrite (boundsLoop_at_fixed _ _ H).
  unfold bind. replace (Rect.neqb r r) with false; [reflexivity |].
  symmetry. apply rect_neqb_false. reflexivity.
Qed.

End FinderFacts.

(** ** The ball detector *)

Lemma pixel_neqb_false (p q : Pixel.t) : Pixel.neqb p q = false <-> p = q.
Proof. unfold Pixel.neqb. rewrite negb_false_iff. apply Z.eqb_eq. Qed.

Lemma pixel_neqb_true (p q : Pixel.t) : Pixel.neqb p q = true <-> p <> q.
Proof. unfold Pixel.neqb. rewrite negb_true_iff. apply Z.eqb_neq. Qed.

Lemma pixel_eqb_true (p q : Pixel.t) : Pixel.eqb p q = true <-> p = q.
Proof. apply Z.eqb_eq. Qed.

Lemma ballCorners_true (frame : GameFrame) (r : Rect.t) :
  ballCorners frame r = true
  <-> frame (Rect.x0 r) (Rect.y0 r) <> ballColor
      /\ frame (Rect.x1 r) (Rect.y0 r) <> ballColor
      /\ frame (Rect.x0 r) (Rect.y1 r) <> ballColor
      /\ frame (Rect.x1 r) (Rect.y1 r) <> ballColor.
Proof.
  unfold ballCorners. rewrite !andb_true_iff, !pixel_neqb_true. tauto.
Qed.

Lemma ballEdges_true (frame : GameFrame) (r : Rect.t) :
  ballEdges frame r = true
  <-> frame (Int.add (Rect.x0 r) (Int.div (Rect.width r) 2)) (Int.add (Rect.y0 r) 1)
      = ballColor
      /\ frame (Int.add (Rect.x0 r) (Int.div (Rect.width r) 2)) (Int.sub (Rect.y1 r) 1)
         = ballColor
      /\ frame (Int.add (Rect.x0 r) 1) (Int.add (Rect.y0 r) (Int.div (Rect.height r) 2))
         = ballColor
      /\ frame (Int.sub (Rect.x1 r) 1) (Int.add (Rect.y0 r) (Int.div (Rect.height r) 2))
         = ballColor.
Proof.
  unfold ballEdges. cbv zeta. rewrite !andb_true_iff, !pixel_eqb_true. tauto.
Qed.

(** C4: [checkForBall] returns true and leaves [r] in [ball] iff the pixel at
    [(x, y)] is the ball colour, the region finder run from the seed
    [(x, y, x+1, y+1)] ends on [r], [r] is more than 4 wide and high, is
    square, has the ball colour at the four edge midpoints one pixel inside
    it, and has another colour at its four corners. *)
Theorem checkForBall_true_iff
  (width height : Z) (frame : GameFrame) (x y : Z) (ball r : Rect.t) :
  checkForBall width height frame x y ball = Some (true, r)
  <->
  frame x y = ballColor
  /\ (exists changed,
         findColorBounds width height frame
           (Rect.mk x y (Int.add x 1) (Int.add y 1)) ballColor = Some (changed, r))
  /\ 4 < Rect.width r /\ 4 < Rect.height r /\ Rect.width r = Rect.height r
  /\ (frame (Int.add (Rect.x0 r) (Int.div (Rect.width r) 2)) (Int.add (Rect.y0 r) 1)
      = ballColor
      /\ frame (Int.add (Rect.x0 r) (Int.div (Rect.width r) 2)) (Int.sub (Rect.y1 r) 1)
         = ballColor
      /\ frame (Int.add (Rect.x0 r) 1) (Int.add (Rect.y0 r) (Int.div (Rect.height r) 2))
         = ballColor
      /\ frame (Int.sub (Rect.x1 r) 1) (Int.add (Rect.y0 r) (Int.div (Rect.height r) 2))
         = ballColor)
  /\ (frame (Rect.x0 r) (Rect.y0 r) <> ballColor
      /\ frame (Rect.x1 r) (Rect.y0 r) <> ballColor
      /\ frame (Rect.x0 r) (Rect.y1 r) <> ballColor
      /\ frame (Rect.x1 r) (Rect.y1 r) <> ballColor).
Proof.
  rewrite <- ballEdges_true, <- ballCorners_true.
  unfold checkForBall.
  destruct (Pixel.neqb (frame x y) ballColor) eqn:Epx.
  - apply pixel_neqb_true in Epx. split; [discriminate | tauto].
  - apply pixel_neqb_false in Epx. unfold bind.
    destruct (findColorBounds width height frame _ ballColor) as [[changed b] |] eqn:Efind.
    + destruct changed.
      * destruct ((4 <? Rect.width b) && (4 <? Rect.height b)
                  && (Rect.width b =? Rect.height b)) eqn:Esize.
        -- destruct (ballCorners frame b && ballEdges frame b) eqn:Eshape.
           ++ apply andb_true_iff in Eshape as [Ec Ee].
              apply andb_true_iff in Esize as [Es Esq].
              apply andb_true_iff in Es as [Ew Eh].
              apply Z.ltb_lt in Ew, Eh. apply Z.eqb_eq in Esq.
              split.
              ** intros H. injection H as <-.
                 repeat split; eauto.
              ** intros (_ & [ch Hch] & _). injection Hch as _ <-. reflexivity.
           ++ split; [discriminate |].
              intros (_ & [ch Hch] & _ & _ & _ & He & Hc).
              injection Hch as _ <-. rewrite He, Hc in Eshape. discriminate.
        -- split; [discriminate |].
           intros (_ & [ch Hch] & Hw & Hh & Hsq & _).
           injection Hch as _ <-.
           apply Z.ltb_lt in Hw, Hh. apply Z.eqb_eq in Hsq.
           rewrite Hw, Hh, Hsq in Esize. discriminate.
      * split; [discriminate |].
        intros (_ & [ch Hch] & Hw & _). injection Hch as _ <-.
        apply findColorBounds_unchanged in Efind. subst b.
        unfold Rect.width in Hw. simpl in Hw.
        rewrite int_succ_sub in Hw. lia.
    + split; [discriminate |]. intros (_ & [ch Hch] & _). discriminate.
Qed.

(** The detector on the example rasters: the round token is accepted from a
    pixel of its top row; a solid 6 x 6 square is rejected, its corners being
    of the ball colour; a 3 x 3 block is rejected as too small. *)
Lemma checkForBall_examples :
  checkForBall 64 64 (tokenFrame 4) 22 20 Rect.zero
  = Some (true, Rect.mk 20 20 25 25)
  /\ checkForBall 64 64 (blockFrame ballColor 20 20 6 6) 22 22 Rect.zero
     = Some (false, Rect.mk 20 20 25 25)
  /\ checkForBall 64 64 (blockFrame ballColor 20 20 3 3) 21 21 Rect.zero
     = Some (false, Rect.mk 20 20 22 22)
  /\ checkForBall 64 64 emptyFrame 21 21 Rect.zero = Some (false, Rect.zero).
Proof. vm_compute. repeat split. Qed.

(** ** findBall leaves the game alone when it fails *)

(** C10: when [findBall] returns false the tracked ball rectangle and the
    last-seen and last-moved readings are those from before the call. *)
Theorem findBall_false_unchanged
  (g g' : Game.t) (frame : GameFrame) (zone : Rect.t) (now : Z) :
  Game.findBall g frame zone now = Some (false, g') ->
  Game.ball g' = Game.ball g
  /\ Game.lastBall g' = Game.lastBall g
  /\ Game.lastBallMove g' = Game.lastBallMove g.
Proof.
  unfold Game.findBall, bind.
  destruct (Game.reacquire g frame (Game.ball g)) as [[found b] |]; [| discriminate].
  destruct found; [discriminate |].
  destruct (Game.scanRows g frame zone _ _ _) as [[found b'] |]; [| discriminate].
  destruct found; [discriminate |].
  intros H. injection H as <-. repeat split.
Qed.

(** In fact nothing of the game changes. *)
Lemma findBall_false_same
  (g g' : Game.t) (frame : GameFrame) (zone : Rect.t) (now : Z) :
  Game.findBall g frame zone now = Some (false, g') -> g' = g.
Proof.
  unfold Game.findBall, bind.
  destruct (Game.reacquire g frame (Game.ball g)) as [[found b] |]; [| discriminate].
  destruct found; [discriminate |].
  destruct (Game.scanRows g frame zone _ _ _) as [[found b'] |]; [| discriminate].
  destruct found; [discriminate |].
  intros H. injection H as <-. reflexivity.
Qed.

(** A failing search does not read the clock. *)
Lemma findBall_false_any_time
  (g g' : Game.t) (frame : GameFrame) (zone : Rect.t) (now now' : Z) :
  Game.findBall g frame zone now = Some (false, g') ->
  Game.findBall g frame zone now' = Some (false, g).
Proof.
  unfold Game.findBall, bind.
  destruct (Game.reacquire g frame (Game.ball g)) as [[found b] |]; [| discriminate].
  destruct found; [discriminate |].
  destruct (Game.scanRows g frame zone _ _ _) as [[found b'] |]; [| discriminate].
  destruct found; [discriminate |].
  reflexivity.
Qed.

Lemma findBall_false_unchanged_witness :
  let g := Game.mk 24 24 (Rect.mk 0 0 24 24) (Rect.mk 4 4 9 9) (Rect.mk 4 4 9 9)
             2 0 100 100 1 0 false in
  Game.ball (Game.set_frameCount g 2) = Game.ball g
  /\ Game.lastBall (Game.set_frameCount g 2) = Game.lastBall g
  /\ Game.lastBallMove (Game.set_frameCount g 2) = Game.lastBallMove g.
Proof.
  apply (findBall_false_unchanged _ _ emptyFrame (Rect.mk 0 0 24 24) 101).
  vm_compute. reflexivity.
Defined.

(** ** The region finder on a solid block *)

Lemma anyFrom_true (n : nat) (i : Z) (p : Z -> bool) :
  anyFrom n i p = true <-> exists j, i <= j < i + Z.of_nat n /\ p j = true.
Proof.
  revert i. induction n as [| n IH]; intros i.
  - simpl. split; [discriminate | intros (j & Hj & _); lia].
  - cbn [anyFrom]. rewrite orb_true_iff, IH. split.
    + intros [H | (j & Hj & Hp)].
      * exists i. split; [lia | exact H].
      * exists j. split; [lia | exact Hp].
    + intros (j & Hj & Hp).
      destruct (Z.eq_dec j i) as [-> | Hne]; [left; exact Hp |].
      right. exists j. split; [lia | exact Hp].
Qed.

Lemma anyInRange_true (lo hi : Z) (p : Z -> bool) :
  anyInRange lo hi p = true <-> exists j, lo <= j < hi /\ p j = true.
Proof.
  unfold anyInRange. rewrite anyFrom_true.
  split; intros (j & Hj & Hp); exists j; (split; [lia | exact Hp]).
Qed.

Lemma boundsPass_sides (width height : Z) (frame : GameFrame) (color : Pixel.t)
  (r : Rect.t) :
  boundsPass width height frame color r
  = growBottom height frame color
      (growRight width frame color (growTop frame color (growLeft frame color r))).
Proof.
  destruct r as [a b c d].
  unfold boundsPass, growBottom, growRight, growTop, growLeft. cbv zeta.
  unfold Rect.set_x0, Rect.set_y0, Rect.set_x1, Rect.set_y1.
  cbn [Rect.x0 Rect.y0 Rect.x1 Rect.y1].
  destruct (leftContainsColor frame _ color);
    cbn [Rect.x0 Rect.y0 Rect.x1 Rect.y1];
    destruct (topContainsColor frame _ color);
    cbn [Rect.x0 Rect.y0 Rect.x1 Rect.y1];
    destruct (rightContainsColor frame _ color);
    cbn [Rect.x0 Rect.y0 Rect.x1 Rect.y1];
    destruct (bottomContainsColor frame _ color);
    reflexivity.
Qed.

Section SolidBlock.

(** The screen. *)
Variables width height : Z.
Hypothesis width_int : width <= Int.max_signed.
Hypothesis height_int : height <= Int.max_signed.

(** The raster: on the screen the pixels of colour [color] are exactly those
    of the columns [col0 .. col0+w-1] and rows [row0 .. row0+h-1], and at
    least one column or row of the screen lies on every side of the block. *)
Variable frame : GameFrame.
Variable color : Pixel.t.
Variables col0 row0 w h : Z.
Hypothesis block_pixels :
  forall x y, 0 <= x < width -> 0 <= y < height ->
    (frame x y = color <-> (col0 <= x < col0 + w /\ row0 <= y < row0 + h)).
Hypothesis margin_left : 1 <= col0.
Hypothesis margin_top : 1 <= row0.
Hypothesis margin_right : col0 + w <= width - 1.
Hypothesis margin_bottom : row0 + h <= height - 1.

(** The seed pixel, inside the block. *)
Variables sx sy : Z.
Hypothesis seed_x : col0 <= sx < col0 + w.
Hypothesis seed_y : row0 <= sy < row0 + h.

Local Abbreviation blockSeed := (blockSeed sx sy).
Local Abbreviation blockFound := (blockFound col0 row0 w h sx sy).
Local Abbreviation blockInv := (blockInv col0 row0 w h sx sy).
Local Abbreviation blockDist := (blockDist col0 row0 w h sx sy).
Local Abbreviation blockNext := (blockNext col0 row0 w h).

Lemma column_scan (x lo hi : Z) :
  0 <= x < width -> 0 <= lo -> hi <= height -> lo <= sy < hi ->
  anyInRange lo hi (fun y => Pixel.eqb (frame x y) color)
  = (col0 <=? x) && (x <? col0 + w).
Proof.
  intros Hx Hlo Hhi Hrows. apply eq_true_iff_eq.
  rewrite anyInRange_true, andb_true_iff, Z.leb_le, Z.ltb_lt. split.
  - intros (j & Hj & Hp). apply pixel_eqb_true, block_pixels in Hp; lia.
  - intros Hin. exists sy. split; [exact Hrows |].
    apply pixel_eqb_true, block_pixels; lia.
Qed.

Lemma row_scan (y lo hi : Z) :
  0 <= y < height -> 0 <= lo -> hi <= width -> lo <= sx < hi ->
  anyInRange lo hi (fun x => Pixel.eqb (frame x y) color)
  = (row0 <=? y) && (y <? row0 + h).
Proof.
  intros Hy Hlo Hhi Hcols. apply eq_true_iff_eq.
  rewrite anyInRange_true, andb_true_iff, Z.leb_le, Z.ltb_lt. split.
  - intros (j & Hj & Hp). apply pixel_eqb_true, block_pixels in Hp; lia.
  - intros Hin. exists sx. split; [exact Hcols |].
    apply pixel_eqb_true, block_pixels; lia.
Qed.

Lemma growLeft_block (r : Rect.t) :
  blockInv r ->
  growLeft frame color r
  = Rect.set_x0 r (if col0 <? Rect.x0 r then Rect.x0 r - 1 else Rect.x0 r).
Proof.
  destruct r as [a b c d]. unfold blockInv, blockFound, growLeft, leftContainsColor.
  unfold Rect.set_x0. cbn [Rect.x0 Rect.y0 Rect.x1 Rect.y1]. intros Hinv.
  int_small. rewrite column_scan by lia.
  destruct (Z.ltb_spec col0 a).
  - replace (Z.max 0 (a - 1)) with (a - 1) by lia.
    replace (col0 <=? a - 1) with true by (symmetry; apply Z.leb_le; lia).
    replace (a - 1 <? col0 + w) with true by (symmetry; apply Z.ltb_lt; lia).
    reflexivity.
  - replace (Z.max 0 (a - 1)) with (a - 1) by lia.
    replace (col0 <=? a - 1) with false by (symmetry; apply Z.leb_gt; lia).
    reflexivity.
Qed.

Lemma growTop_block (r : Rect.t) :
  blockInv r ->
  growTop frame color r
  = Rect.set_y0 r (if row0 <? Rect.y0 r then Rect.y0 r - 1 else Rect.y0 r).
Proof.
  destruct r as [a b c d]. unfold blockInv, blockFound, growTop, topContainsColor.
  unfold Rect.set_y0. cbn [Rect.x0 Rect.y0 Rect.x1 Rect.y1]. intros Hinv.
  int_small. rewrite row_scan by lia.
  destruct (Z.ltb_spec row0 b).
  - replace (Z.max 0 (b - 1)) with (b - 1) by lia.
    replace (row0 <=? b - 1) with true by (symmetry; apply Z.leb_le; lia).
    replace (b - 1 <? row0 + h) with true by (symmetry; apply Z.ltb_lt; lia).
    reflexivity.
  - replace (Z.max 0 (b - 1)) with (b - 1) by lia.
    replace (row0 <=? b - 1) with false by (symmetry; apply Z.leb_gt; lia).
    reflexivity.
Qed.

Lemma growRight_block (r : Rect.t) :
  blockInv r ->
  growRight width frame color r
  = Rect.set_x1 r (if Rect.x1 r <? col0 + w - 1 then Rect.x1 r + 1 else Rect.x1 r).
Proof.
  destruct r as [a b c d]. unfold blockInv, blockFound, growRight, rightContainsColor.
  unfold Rect.set_x1. cbn [Rect.x0 Rect.y0 Rect.x1 Rect.y1]. intros Hinv.
  int_small. rewrite column_scan by lia.
  destruct (Z.ltb_spec c (col0 + w - 1)).
  - replace (Z.min (width - 1) (c + 1)) with (c + 1) by lia.
    replace (col0 <=? c + 1) with true by (symmetry; apply Z.leb_le; lia).
    replace (c + 1 <? col0 + w) with true by (symmetry; apply Z.ltb_lt; lia).
    reflexivity.
  - replace (Z.min (width - 1) (c + 1) <? col0 + w) with false; cycle 1.
    { symmetry. apply Z.ltb_ge. lia. }
    rewrite andb_false_r. reflexivity.
Qed.

Lemma growBottom_block (r : Rect.t) :
  blockInv r ->
  growBottom height frame color r
  = Rect.set_y1 r (if Rect.y1 r <? row0 + h - 1 then Rect.y1 r + 1 else Rect.y1 r).
Proof.
  destruct r as [a b c d]. unfold blockInv, blockFound, growBottom, bottomContainsColor.
  unfold Rect.set_y1. cbn [Rect.x0 Rect.y0 Rect.x1 Rect.y1]. intros Hinv.
  int_small. rewrite row_scan by lia.
  destruct (Z.ltb_spec d (row0 + h - 1)).
  - replace (Z.min (height - 1) (d + 1)) with (d + 1) by lia.
    replace (row0 <=? d + 1) with true by (symmetry; apply Z.leb_le; lia).
    replace (d + 1 <? row0 + h) with true by (symmetry; apply Z.ltb_lt; lia).
    reflexivity.
  - replace (Z.min (height - 1) (d + 1) <? row0 + h) with false; cycle 1.
    { symmetry. apply Z.ltb_ge. lia. }
    rewrite andb_false_r. reflexivity.
Qed.

Lemma boundsPass_block (r : Rect.t) :
  blockInv r -> boundsPass width height frame color r = blockNext r.
Proof.
  intros Hinv. rewrite boundsPass_sides.
  assert (I1 : blockInv (growLeft frame color r)).
  { rewrite growLeft_block by exact Hinv.
    destruct r as [a b c d]; unfold blockInv, blockFound, Rect.set_x0 in *;
      cbn [Rect.x0 Rect.y0 Rect.x1 Rect.y1] in *.
    destruct (col0 <? a) eqn:E; [apply Z.ltb_lt in E |]; lia. }
  assert (I2 : blockInv (growTop frame color (growLeft frame color r))).
  { rewrite growTop_block by exact I1. revert I1.
    destruct (growLeft frame color r) as [a b c d];
      unfold blockInv, blockFound, Rect.set_y0;
      cbn [Rect.x0 Rect.y0 Rect.x1 Rect.y1]. intros I1.
    destruct (row0 <? b) eqn:E; [apply Z.ltb_lt in E |]; lia. }
  rewrite growBottom_block; cycle 1.
  { rewrite growRight_block by exact I2. revert I2.
    destruct (growTop frame color (growLeft frame color r)) as [a b c d];
      unfold blockInv, blockFound, Rect.set_x1;
      cbn [Rect.x0 Rect.y0 Rect.x1 Rect.y1]. intros I2.
    destruct (c <? col0 + w - 1) eqn:E; [apply Z.ltb_lt in E |]; lia. }
  rewrite growRight_block by exact I2.
  rewrite growTop_block by exact I1.
  rewrite growLeft_block by exact Hinv.
  destruct r as [a b c d]. reflexivity.
Qed.

Lemma blockNext_inv (r : Rect.t) : blockInv r -> blockInv (blockNext r).
Proof.
  destruct r as [a b c d]. unfold blockInv, blockNext, blockFound.
  cbn [Rect.x0 Rect.y0 Rect.x1 Rect.y1]. intros Hinv.
  destruct (Z.ltb_spec col0 a), (Z.ltb_spec row0 b),
    (Z.ltb_spec c (col0 + w - 1)), (Z.ltb_spec d (row0 + h - 1)); lia.
Qed.

Lemma blockNext_progress (r : Rect.t) :
  blockInv r ->
  (blockNext r = r /\ r = blockFound)
  \/ (blockNext r <> r /\ 0 <= blockDist (blockNext r) < blockDist r).
Proof.
  destruct r as [a b c d]. unfold blockInv, blockNext, blockDist, blockFound.
  cbn [Rect.x0 Rect.y0 Rect.x1 Rect.y1]. intros Hinv.
  destruct (Z.ltb_spec col0 a), (Z.ltb_spec row0 b),
    (Z.ltb_spec c (col0 + w - 1)), (Z.ltb_spec d (row0 + h - 1));
    try (right; split; [intros Heq; injection Heq; lia | lia]).
  left. split; [reflexivity |]. apply rect_eq; simpl; lia.
Qed.

Lemma boundsLoop_block (fuel : nat) (r : Rect.t) :
  blockInv r -> blockDist r < Z.of_nat fuel ->
  boundsLoop width height fuel frame color r = Some blockFound.
Proof.
  revert r. induction fuel as [| fuel IH]; intros r Hinv Hd.
  - destruct (blockNext_progress r Hinv) as [[_ ->] | [_ Hlt]];
      [unfold blockDist in Hd; simpl in Hd |]; lia.
  - cbn [boundsLoop]. rewrite boundsPass_block by exact Hinv.
    destruct (blockNext_progress r Hinv) as [[Hfix ->] | [Hne Hlt]].
    + rewrite Hfix.
      replace (Rect.neqb blockFound blockFound) with false; [reflexivity |].
      symmetry. apply rect_neqb_false. reflexivity.
    + destruct (Rect.neqb r (blockNext r)) eqn:E.
      * apply IH; [apply blockNext_inv; exact Hinv | lia].
      * apply rect_neqb_false in E. congruence.
Qed.

Lemma blockSeed_inv : blockInv blockSeed.
Proof. unfold blockInv, blockSeed, blockFound; simpl. lia. Qed.

Lemma blockSeed_fuel : blockDist blockSeed < Z.of_nat (boundsFuel width height blockSeed).
Proof.
  unfold boundsFuel, blockDist, blockSeed, blockFound, lowSlack, highSlack.
  cbn [Rect.x0 Rect.y0 Rect.x1 Rect.y1]. int_small.
  replace (sx =? Int.min_signed) with false by (symmetry; apply Z.eqb_neq; int_range).
  replace (sy =? Int.min_signed) with false by (symmetry; apply Z.eqb_neq; int_range).
  replace (sx + 1 =? Int.max_signed) with false by (symmetry; apply Z.eqb_neq; int_range).
  replace (sy + 1 =? Int.max_signed) with false by (symmetry; apply Z.eqb_neq; int_range).
  replace (sx <? 0) with false by (symmetry; apply Z.ltb_ge; lia).
  replace (sy <? 0) with false by (symmetry; apply Z.ltb_ge; lia).
  replace (width - 1 <? sx + 1) with false by (symmetry; apply Z.ltb_ge; lia).
  replace (height - 1 <? sy + 1) with false by (symmetry; apply Z.ltb_ge; lia).
  rewrite Nat2Z.inj_succ, Z2Nat.id by lia. lia.
Qed.

(** C3: on a raster whose pixels of the target colour are exactly a solid
    block with a margin of screen around it, the finder run from the seed
    [(sx, sy, sx+1, sy+1)] of a pixel of the block stops, with [x0], [y0]
    on the first column and row of the block and [x1], [y1] on its last
    column and row ([col0+w-1], [row0+h-1]), except that a side stays at
    [sx+1] or [sy+1] when the seed pixel is itself on the last column or
    row; it returns true iff that rectangle differs from the seed, and a
    second run from that rectangle returns false and leaves it. *)
Theorem findColorBounds_solid_block :
  findColorBounds width height frame blockSeed color
  = Some (negb (Rect.eqb blockSeed blockFound), blockFound)
  /\ findColorBounds width height frame blockFound color
     = Some (false, blockFound).
Proof.
  assert (E : findColorBounds width height frame blockSeed color
              = Some (negb (Rect.eqb blockSeed blockFound), blockFound)).
  { unfold findColorBounds.
    rewrite (boundsLoop_block _ _ blockSeed_inv blockSeed_fuel). unfold bind.
    rewrite rect_neqb_negb_eqb.
    destruct (Rect.eqb blockSeed blockFound) eqn:Eq; [| reflexivity].
    apply rect_eqb_eq in Eq. rewrite Eq. reflexivity. }
  split; [exact E |].
  exact (findColorBounds_again _ _ _ _ _ _ _ E).
Qed.

End SolidBlock.

Lemma blockFrame_pixels (color : Pixel.t) (col0 row0 w h : Z) :
  color <> fieldColor ->
  forall x y,
    blockFrame color col0 row0 w h x y = color
    <-> (col0 <= x < col0 + w /\ row0 <= y < row0 + h).
Proof.
  intros Hc x y. unfold blockFrame.
  destruct ((col0 <=? x) && (x <? col0 + w) && (row0 <=? y) && (y <? row0 + h)) eqn:E.
  - rewrite !andb_true_iff, !Z.leb_le, !Z.ltb_lt in E. split; [lia | reflexivity].
  - split; [intros H; congruence |].
    intros H. rewrite <- not_true_iff_false in E. exfalso. apply E.
    rewrite !andb_true_iff, !Z.leb_le, !Z.ltb_lt. lia.
Qed.

Lemma ballColor_not_fieldColor : ballColor <> fieldColor.
Proof. vm_compute. discriminate. Qed.

(** C3 as stated fails: from the seed of a pixel on the last column of a
    3 x 3 block at (2, 2) the finder stops on (2, 2, 5, 4), which is neither
    the block with its far corner excluded nor with its far corner included;
    and on a one-pixel block it returns false. *)
Lemma findColorBounds_block_counterexample :
  findColorBounds 8 8 (blockFrame ballColor 2 2 3 3) (Rect.mk 4 3 5 4) ballColor
  = Some (true, Rect.mk 2 2 5 4)
  /\ Rect.mk 2 2 5 4 <> Rect.mk 2 2 5 5
  /\ Rect.mk 2 2 5 4 <> Rect.mk 2 2 4 4
  /\ findColorBounds 8 8 (blockFrame ballColor 2 2 1 1) (Rect.mk 2 2 3 3) ballColor
     = Some (false, Rect.mk 2 2 3 3).
Proof.
  vm_compute. repeat split; discriminate.
Qed.

Lemma findColorBounds_solid_block_witness :
  findColorBounds 16 12 (blockFrame ballColor 3 2 6 5) (Rect.mk 5 4 6 5) ballColor
  = Some (true, Rect.mk 3 2 8 6)
  /\ findColorBounds 16 12 (blockFrame ballColor 3 2 6 5) (Rect.mk 3 2 8 6) ballColor
     = Some (false, Rect.mk 3 2 8 6).
Proof.
  apply (findColorBounds_solid_block 16 12 ltac:(vm_compute; discriminate)
           ltac:(vm_compute; discriminate)
           (blockFrame ballColor 3 2 6 5) ballColor 3 2 6 5
           (fun x y _ _ => blockFrame_pixels ballColor 3 2 6 5
                             ballColor_not_fieldColor x y)
           ltac:(lia) ltac:(lia) ltac:(lia) ltac:(lia) 5 4 ltac:(lia) ltac:(lia)).
Defined.

(** ** The game loop *)

(** *** ACTIVE, ball found: the probe box *)

Lemma isBallSurrounded_probe (width height : Z) (frame : GameFrame) (b : Rect.t) :
  isBallSurrounded width height frame b = true
  <-> edgeMidpointsOffField frame (expansions width height 3 b).
Proof.
  unfold isBallSurrounded, edgeMidpointsOffField, expansions. cbv zeta.
  cbn [Nat.iter]. rewrite !andb_true_iff, !pixel_neqb_true. tauto.
Qed.

Lemma step_active_found (g g1 : Game.t) (frame : GameFrame) (tFind tStep : Z) :
  Game.haveField g = true ->
  Game.findBall g frame (Game.field g) tFind = Some (true, g1) ->
  Game.step g frame tFind tStep
  = (let ballBox := snd (expand (Game.width g1) (Game.height g1) (Game.ball g1)) in
     let '(g2, ev) :=
       if isBallSurrounded (Game.width g1) (Game.height g1) frame ballBox then
         if negb (Game.hasFired g1) then
           let '(fired, g2, ev) := Game.fire g1 in (Game.set_hasFired g2 fired, ev)
         else (g1, [])
       else (Game.set_hasFired g1 false, []) in
     let keepPlaying := Clock.sub tStep (Game.lastBallMove g2) <? 2 in
     Some (keepPlaying, nextFrame g2,
           ev ++ (if keepPlaying then [] else [LogGameStopped (Game.frameCount g2)]))).
Proof.
  intros Hhave Hfind. unfold Game.step. rewrite Hhave. cbn [negb].
  rewrite Hfind. cbn [bind]. cbv zeta.
  destruct (isBallSurrounded _ _ frame _).
  - destruct (negb (Game.hasFired g1)).
    + destruct (Game.fire g1) as [[fired g2] ev]. reflexivity.
    + reflexivity.
  - reflexivity.
Qed.

(** C1: in the ACTIVE state, when [findBall] finds the ball, the probe box is
    the ball rectangle after 4 one-pixel expansions clamped to the screen
    (one in [step], three in [isBallSurrounded]); the ball is judged
    surrounded iff the pixels at the four edge midpoints of that box all
    differ from the field colour; when it is and the game has not yet fired
    for this episode the fire policy runs and its answer becomes [hasFired],
    when it is and the game has fired nothing is done, and when it is not
    [hasFired] is cleared. *)
Theorem step_active_probe_box
  (g g1 : Game.t) (frame : GameFrame) (tFind tStep : Z) :
  Game.haveField g = true ->
  Game.findBall g frame (Game.field g) tFind = Some (true, g1) ->
  let probe := expansions (Game.width g1) (Game.height g1) 4 (Game.ball g1) in
  let stopLog g2 :=
    if Clock.sub tStep (Game.lastBallMove g2) <? 2 then []
    else [LogGameStopped (Game.frameCount g2)] in
  (isBallSurrounded (Game.width g1) (Game.height g1) frame
     (snd (expand (Game.width g1) (Game.height g1) (Game.ball g1))) = true
   <-> edgeMidpointsOffField frame probe)
  /\ (edgeMidpointsOffField frame probe -> Game.hasFired g1 = false ->
      Game.step g frame tFind tStep
      = Some (Clock.sub tStep (Game.lastBallMove g1) <? 2,
              nextFrame (Game.set_hasFired (snd (fst (Game.fire g1)))
                                           (fst (fst (Game.fire g1)))),
              snd (Game.fire g1) ++ stopLog g1))
  /\ (edgeMidpointsOffField frame probe -> Game.hasFired g1 = true ->
      Game.step g frame tFind tStep
      = Some (Clock.sub tStep (Game.lastBallMove g1) <? 2, nextFrame g1, stopLog g1))
  /\ (~ edgeMidpointsOffField frame probe ->
      Game.step g frame tFind tStep
      = Some (Clock.sub tStep (Game.lastBallMove g1) <? 2,
              nextFrame (Game.set_hasFired g1 false), stopLog g1)).
Proof.
  intros Hhave Hfind probe stopLog.
  assert (Hprobe : isBallSurrounded (Game.width g1) (Game.height g1) frame
                     (snd (expand (Game.width g1) (Game.height g1) (Game.ball g1))) = true
                   <-> edgeMidpointsOffField frame probe).
  { rewrite isBallSurrounded_probe. unfold probe, expansions.
    cbn [Nat.iter]. tauto. }
  split; [exact Hprobe |].
  rewrite (step_active_found g g1 frame tFind tStep Hhave Hfind). cbv zeta.
  repeat split.
  - intros Hoff Hnot. apply Hprobe in Hoff. rewrite Hoff, Hnot. cbn [negb].
    unfold Game.fire, stopLog.
    destruct (Game.deadzoneFrames g1 <=? _); reflexivity.
  - intros Hoff Hyes. apply Hprobe in Hoff. rewrite Hoff, Hyes. reflexivity.
  - intros Hoff. destruct (isBallSurrounded _ _ frame _) eqn:E.
    + exfalso. apply Hoff, Hprobe. reflexivity.
    + reflexivity.
Qed.

(** C1 as stated fails: with the markers 4 pixels out, the box of 3
    expansions of the ball rectangle has the field colour at all four edge
    midpoints, yet [step] judges the ball surrounded and fires; with the
    markers 3 pixels out, that box has no field colour at its edge midpoints,
    yet [step] does not fire. *)
Lemma step_probe_three_counterexample :
  Game.haveField activeGame = true
  /\ Game.findBall activeGame (tokenFrame 4) (Game.field activeGame) 100
     = Some (true, activeGame)
  /\ Game.findBall activeGame (tokenFrame 3) (Game.field activeGame) 100
     = Some (true, activeGame)
  /\ expansions 64 64 3 (Game.ball activeGame) = Rect.mk 17 17 28 28
  /\ (tokenFrame 4 22 17 = fieldColor /\ tokenFrame 4 22 28 = fieldColor
      /\ tokenFrame 4 17 22 = fieldColor /\ tokenFrame 4 28 22 = fieldColor)
  /\ Game.step activeGame (tokenFrame 4) 100 100
     = Some (true,
             Game.mk 64 64 (Rect.mk 0 0 64 64) (Rect.mk 20 20 25 25)
                     (Rect.mk 0 0 60 60) 11 10 100 100 1 0 true,
             [CtlFire; LogFire 10 0])
  /\ edgeMidpointsOffField (tokenFrame 3) (Rect.mk 17 17 28 28)
  /\ Game.step activeGame (tokenFrame 3) 100 100
     = Some (true,
             Game.mk 64 64 (Rect.mk 0 0 64 64) (Rect.mk 20 20 25 25)
                     (Rect.mk 0 0 60 60) 11 0 100 100 1 0 false,
             []).
Proof.
  vm_compute. repeat split; discriminate.
Qed.

Lemma step_active_probe_box_witness :
  expansions 64 64 4 (Game.ball activeGame) = Rect.mk 16 16 29 29
  /\ Game.step activeGame (tokenFrame 4) 100 100
     = Some (true,
             Game.mk 64 64 (Rect.mk 0 0 64 64) (Rect.mk 20 20 25 25)
                     (Rect.mk 0 0 60 60) 11 10 100 100 1 0 true,
             [CtlFire; LogFire 10 0]).
Proof.
  split; [vm_compute; reflexivity |].
  destruct (step_active_probe_box activeGame activeGame (tokenFrame 4) 100 100)
    as [_ [Hfire _]].
  - vm_compute. reflexivity.
  - vm_compute. reflexivity.
  - rewrite Hfire.
    + vm_compute. reflexivity.
    + vm_compute. repeat split; discriminate.
    + reflexivity.
Defined.

(** *** BOOTSTRAP, no ball *)

(** C5 as stated fails: a field exists and no ball is found, yet the step
    sends focus and fire and grows the field. *)
Lemma step_bootstrap_no_ball_counterexample :
  Game.haveField startedGame = false
  /\ Rect.x1 (Game.field startedGame) <> 0
  /\ Game.findBall startedGame emptyFrame (wholeScreen startedGame) 101
     = Some (false, startedGame)
  /\ Game.step startedGame emptyFrame 101 101
     = Some (true,
             Game.mk 24 24 (Rect.mk 0 0 24 24) (Rect.mk 4 4 9 9) (Rect.mk 3 3 10 10)
                     2 0 100 100 1 0 false,
             [CtlFocus 6 6; CtlFire; LogGameStarted 1])
  /\ Game.mk 24 24 (Rect.mk 0 0 24 24) (Rect.mk 4 4 9 9) (Rect.mk 3 3 10 10)
             2 0 100 100 1 0 false
     <> nextFrame startedGame.
Proof.
  vm_compute. repeat split; discriminate.
Qed.

Lemma rect_eqb_false (r1 r2 : Rect.t) : r1 <> r2 -> Rect.eqb r1 r2 = false.
Proof.
  intros H. destruct (Rect.eqb r1 r2) eqn:E; [| reflexivity].
  apply rect_eqb_eq in E. contradiction.
Qed.

(** C5: in BOOTSTRAP, a step that finds no ball while the field's [x1] is
    still 0 asks for the image dump and returns false, changing only the
    frame counter; a step that finds no ball while a field exists that is
    not the ball box returns true, writes nothing and changes only the frame
    counter. *)
Theorem step_bootstrap_no_ball
  (g g1 : Game.t) (frame : GameFrame) (tFind tStep : Z) :
  Game.haveField g = false ->
  Game.findBall g frame (wholeScreen g) tFind = Some (false, g1) ->
  (Rect.x1 (Game.field g) = 0 ->
   Game.step g frame tFind tStep
   = Some (false, nextFrame g, [LogNoBall; SavePng "no-ball-proof.png"]))
  /\ (Rect.x1 (Game.field g) <> 0 -> Game.field g <> Game.ball g ->
      Game.step g frame tFind tStep = Some (true, nextFrame g, [])).
Proof.
  intros Hhave Hfind.
  pose proof (findBall_false_same _ _ _ _ _ Hfind) as ->.
  unfold wholeScreen in Hfind.
  split.
  - intros Hx1. unfold Game.step, Game.expandField. rewrite Hhave. cbn [negb].
    rewrite Hfind. cbn [bind negb]. rewrite Hx1. reflexivity.
  - intros Hx1 Hne. unfold Game.step, Game.expandField. rewrite Hhave. cbn [negb].
    rewrite Hfind. cbn [bind negb].
    replace (Rect.x1 (Game.field g) =? 0) with false
      by (symmetry; apply Z.eqb_neq; exact Hx1).
    cbn [bind]. rewrite (rect_eqb_false _ _ Hne), andb_false_r, Hhave.
    reflexivity.
Qed.

Lemma step_bootstrap_no_ball_witness :
  Game.step (Game.create 24 24 1 100 100) emptyFrame 101 101
  = Some (false, nextFrame (Game.create 24 24 1 100 100),
          [LogNoBall; SavePng "no-ball-proof.png"])
  /\ Game.step waitingGame emptyFrame 101 101 = Some (true, nextFrame waitingGame, []).
Proof.
  split.
  - apply (step_bootstrap_no_ball (Game.create 24 24 1 100 100)
             (Game.create 24 24 1 100 100) emptyFrame 101 101).
    + vm_compute. reflexivity.
    + vm_compute. reflexivity.
    + reflexivity.
  - apply (step_bootstrap_no_ball waitingGame waitingGame emptyFrame 101 101).
    + vm_compute. reflexivity.
    + vm_compute. reflexivity.
    + vm_compute. discriminate.
    + vm_compute. discriminate.
Defined.

(** *** ACTIVE, no ball: the timeout *)

Lemma findBall_frameCount (g : Game.t) (n : Z) (frame : GameFrame)
  (zone : Rect.t) (now : Z) :
  Game.findBall g frame zone now = Some (false, g) ->
  Game.findBall (Game.set_frameCount g n) frame zone now
  = Some (false, Game.set_frameCount g n).
Proof.
  unfold Game.findBall, bind.
  change (Game.reacquire (Game.set_frameCount g n) frame) with (Game.reacquire g frame).
  change (Game.ball (Game.set_frameCount g n)) with (Game.ball g).
  destruct (Game.reacquire g frame (Game.ball g)) as [[found b] |]; [| discriminate].
  destruct found; [discriminate |].
  change (Game.scanRows (Game.set_frameCount g n) frame zone)
    with (Game.scanRows g frame zone).
  destruct (Game.scanRows g frame zone _ _ _) as [[found b'] |]; [| discriminate].
  destruct found; [discriminate |].
  reflexivity.
Qed.

Lemma step_active_lost (g : Game.t) (frame : GameFrame) (tFind tStep : Z) :
  Game.haveField g = true ->
  Game.findBall g frame (Game.field g) tFind = Some (false, g) ->
  Game.step g frame tFind tStep
  = Some (Clock.sub tStep (Game.lastBall g) <? 2, nextFrame g, []).
Proof.
  intros Hhave Hfind. unfold Game.step. rewrite Hhave. cbn [negb].
  rewrite Hfind. reflexivity.
Qed.

Lemma steps_active_lost (inputs : list (GameFrame * Z * Z)) (g : Game.t) :
  Game.haveField g = true ->
  Forall (fun '(frame, tFind, _) =>
            Game.findBall g frame (Game.field g) tFind = Some (false, g)) inputs ->
  forall n, exists n',
    steps inputs (Game.set_frameCount g n)
    = Some (map (fun '(_, _, tStep) => Clock.sub tStep (Game.lastBall g) <? 2) inputs,
            Game.set_frameCount g n').
Proof.
  intros Hhave Hall. induction Hall as [| [[frame tFind] tStep] rest Hlost _ IH];
    intros n.
  - exists n. reflexivity.
  - cbn [steps map].
    rewrite (step_active_lost (Game.set_frameCount g n) frame tFind tStep);
      [| exact Hhave | apply (findBall_frameCount g n frame (Game.field g) tFind Hlost)].
    cbn [bind]. unfold nextFrame.
    destruct (IH (Int.add (Game.frameCount (Game.set_frameCount g n)) 1)) as [n' Hn'].
    exists n'.
    change (Game.set_frameCount (Game.set_frameCount g n)
              (Int.add (Game.frameCount (Game.set_frameCount g n)) 1))
      with (Game.set_frameCount g (Int.add (Game.frameCount (Game.set_frameCount g n)) 1)).
    rewrite Hn'. reflexivity.
Qed.

Lemma set_frameCount_same (g : Game.t) : Game.set_frameCount g (Game.frameCount g) = g.
Proof. destruct g. reflexivity. Qed.

(** When the difference of two readings fits [time_t], [Clock.sub] is the
    difference. *)
Lemma clock_sub_exact (a b : Z) : Clock.in_range (a - b) -> Clock.sub a b = a - b.
Proof. apply clock_wrap_small. Qed.

(** C6: in the ACTIVE state a step that does not find the ball returns true
    iff the reading of the clock taken by the step, minus the reading when
    the ball was last seen, is less than 2, and changes only the frame
    counter; so over any run of steps that do not find the ball, the step on
    each frame returns true exactly when that difference is below 2 for its
    own reading: the first that returns false is the first whose reading is 2
    or more past the last sighting. *)
Theorem step_lost_ball_timeout
  (g g1 : Game.t) (frame : GameFrame) (tFind tStep : Z)
  (inputs : list (GameFrame * Z * Z)) :
  Game.haveField g = true ->
  Game.findBall g frame (Game.field g) tFind = Some (false, g1) ->
  Forall (fun '(frame, tFind, _) =>
            exists g2, Game.findBall g frame (Game.field g) tFind = Some (false, g2))
         inputs ->
  (exists keepPlaying,
      Game.step g frame tFind tStep = Some (keepPlaying, nextFrame g, [])
      /\ (keepPlaying = true <-> Clock.sub tStep (Game.lastBall g) < 2))
  /\ (exists g',
         steps inputs g
         = Some (map (fun '(_, _, tStep) => Clock.sub tStep (Game.lastBall g) <? 2)
                     inputs, g')
         /\ Game.lastBall g' = Game.lastBall g).
Proof.
  intros Hhave Hfind Hall. split.
  - pose proof (findBall_false_same _ _ _ _ _ Hfind) as ->.
    exists (Clock.sub tStep (Game.lastBall g) <? 2). split.
    + apply step_active_lost; assumption.
    + apply Z.ltb_lt.
  - assert (Hall' : Forall (fun '(frame, tFind, _) =>
                      Game.findBall g frame (Game.field g) tFind = Some (false, g))
                      inputs).
    { eapply Forall_impl; [| exact Hall].
      intros [[f tf] ts] [g2 H2].
      pose proof (findBall_false_same _ _ _ _ _ H2) as ->. exact H2. }
    destruct (steps_active_lost inputs g Hhave Hall' (Game.frameCount g)) as [n' Hn'].
    rewrite set_frameCount_same in Hn'.
    exists (Game.set_frameCount g n'). split; [exact Hn' | reflexivity].
Qed.

Lemma step_lost_ball_timeout_witness :
  (exists keepPlaying,
      Game.step activeGame emptyFrame 101 101
      = Some (keepPlaying, nextFrame activeGame, [])
      /\ (keepPlaying = true <-> Clock.sub 101 (Game.lastBall activeGame) < 2))
  /\ (exists g',
         steps [(emptyFrame, 100, 100); (emptyFrame, 101, 101);
                (emptyFrame, 102, 102); (emptyFrame, 103, 103)] activeGame
         = Some ([true; true; false; false], g')
         /\ Game.lastBall g' = Game.lastBall activeGame).
Proof.
  apply (step_lost_ball_timeout activeGame activeGame emptyFrame 101 101
           [(emptyFrame, 100, 100); (emptyFrame, 101, 101);
            (emptyFrame, 102, 102); (emptyFrame, 103, 103)]).
  - vm_compute. reflexivity.
  - vm_compute. reflexivity.
  - repeat constructor; exists activeGame; vm_compute; reflexivity.
Defined.

(** ** The fuel is enough *)

Lemma lowSlack_nonneg (v : Z) : Int.in_range v -> 0 <= lowSlack v.
Proof.
  unfold lowSlack. intros Hv.
  destruct (v =? Int.min_signed); [lia |].
  destruct (Z.ltb_spec v 0); lia.
Qed.

Lemma highSlack_nonneg (bound v : Z) : 0 <= highSlack bound v.
Proof.
  unfold highSlack.
  destruct (v =? Int.max_signed); [lia |].
  destruct (Z.ltb_spec bound v); lia.
Qed.

(** A side that moves gets closer to its end. *)
Lemma lowSlack_step (v : Z) :
  Int.in_range v ->
  let v' := Z.max 0 (Int.sub v 1) in
  Int.in_range v' /\ (v' = v \/ lowSlack v' < lowSlack v).
Proof.
  intros Hv. cbv zeta. unfold lowSlack.
  destruct (Z.eqb_spec v Int.min_signed) as [-> | Hmin].
  - vm_compute. split; [split; discriminate | right; reflexivity].
  - assert (E : Int.sub v 1 = v - 1) by (int_small; reflexivity).
    rewrite E.
    destruct (Z.eqb_spec (Z.max 0 (v - 1)) Int.min_signed) as [E' | _];
      [unfold Int.min_signed in E'; lia |].
    destruct (Z.ltb_spec v 0), (Z.ltb_spec (Z.max 0 (v - 1)) 0);
      (split; [int_range | lia]).
Qed.

Lemma highSlack_step (bound v : Z) :
  Int.in_range bound -> bound < Int.max_signed -> Int.in_range v ->
  let v' := Z.min bound (Int.add v 1) in
  Int.in_range v' /\ (v' = v \/ highSlack bound v' < highSlack bound v).
Proof.
  intros Hb Hb' Hv. cbv zeta. unfold highSlack.
  destruct (Z.eqb_spec v Int.max_signed) as [-> | Hmax].
  - replace (Int.add Int.max_signed 1) with Int.min_signed by reflexivity.
    replace (Z.min bound Int.min_signed) with Int.min_signed by int_range.
    replace (Int.min_signed =? Int.max_signed) with false by reflexivity.
    replace (bound <? Int.min_signed) with false
      by (symmetry; apply Z.ltb_ge; int_range).
    split; [int_range | right; int_range].
  - assert (E : Int.add v 1 = v + 1) by (int_small; reflexivity).
    rewrite E.
    destruct (Z.eqb_spec (Z.min bound (v + 1)) Int.max_signed) as [E' | _];
      [int_range |].
    destruct (Z.ltb_spec bound v), (Z.ltb_spec bound (Z.min bound (v + 1)));
      (split; [int_range | lia]).
Qed.

Section FinderTotal.

Variables width height : Z.
Hypothesis width_int : Int.min_signed < width <= Int.max_signed.
Hypothesis height_int : Int.min_signed < height <= Int.max_signed.
Variable frame : GameFrame.
Variable color : Pixel.t.

Local Abbreviation boundsSlack := (boundsSlack width height).

(** Each side after a pass is where it was or at its candidate. *)
Lemma boundsPass_coords (r : Rect.t) :
  let p := boundsPass width height frame color r in
  (Rect.x0 p = Rect.x0 r \/ Rect.x0 p = Z.max 0 (Int.sub (Rect.x0 r) 1))
  /\ (Rect.y0 p = Rect.y0 r \/ Rect.y0 p = Z.max 0 (Int.sub (Rect.y0 r) 1))
  /\ (Rect.x1 p = Rect.x1 r
      \/ Rect.x1 p = Z.min (Int.sub width 1) (Int.add (Rect.x1 r) 1))
  /\ (Rect.y1 p = Rect.y1 r
      \/ Rect.y1 p = Z.min (Int.sub height 1) (Int.add (Rect.y1 r) 1)).
Proof.
  cbv zeta. rewrite boundsPass_sides. destruct r as [a b c d].
  unfold growBottom, growRight, growTop, growLeft. cbv zeta.
  destruct (leftContainsColor frame _ color);
    destruct (topContainsColor frame _ color);
    destruct (rightContainsColor frame _ color);
    destruct (bottomContainsColor frame _ color);
    cbn [Rect.x0 Rect.y0 Rect.x1 Rect.y1 Rect.set_x0 Rect.set_y0
         Rect.set_x1 Rect.set_y1]; tauto.
Qed.

Lemma boundsPass_slack (r : Rect.t) :
  rectInRange r ->
  let p := boundsPass width height frame color r in
  rectInRange p /\ (p = r \/ boundsSlack p < boundsSlack r).
Proof.
  intros (Ha & Hb & Hc & Hd). cbv zeta.
  pose proof (boundsPass_coords r) as (Px0 & Py0 & Px1 & Py1). cbv zeta in *.
  set (p := boundsPass width height frame color r) in *. clearbody p.
  assert (Hw : Int.in_range (Int.sub width 1) /\ Int.sub width 1 < Int.max_signed).
  { int_small. int_range. }
  assert (Hh : Int.in_range (Int.sub height 1) /\ Int.sub height 1 < Int.max_signed).
  { int_small. int_range. }
  destruct Hw as [Hw Hw'], Hh as [Hh Hh'].
  pose proof (lowSlack_step _ Ha) as [Ra Sa].
  pose proof (lowSlack_step _ Hb) as [Rb Sb].
  pose proof (highSlack_step _ _ Hw Hw' Hc) as [Rc Sc].
  pose proof (highSlack_step _ _ Hh Hh' Hd) as [Rd Sd].
  cbv zeta in *. unfold boundsSlack, rectInRange.
  destruct p as [a' b' c' d'], r as [a b c d].
  cbn [Rect.x0 Rect.y0 Rect.x1 Rect.y1] in *.
  assert (Ia : Int.in_range a' /\ (a' = a \/ lowSlack a' < lowSlack a)).
  { destruct Px0 as [-> | ->]; [split; [exact Ha | left; reflexivity] | tauto]. }
  assert (Ib : Int.in_range b' /\ (b' = b \/ lowSlack b' < lowSlack b)).
  { destruct Py0 as [-> | ->]; [split; [exact Hb | left; reflexivity] | tauto]. }
  assert (Ic : Int.in_range c'
               /\ (c' = c \/ highSlack (Int.sub width 1) c'
                             < highSlack (Int.sub width 1) c)).
  { destruct Px1 as [-> | ->]; [split; [exact Hc | left; reflexivity] | tauto]. }
  assert (Id : Int.in_range d'
               /\ (d' = d \/ highSlack (Int.sub height 1) d'
                             < highSlack (Int.sub height 1) d)).
  { destruct Py1 as [-> | ->]; [split; [exact Hd | left; reflexivity] | tauto]. }
  clear Px0 Py0 Px1 Py1 Sa Sb Sc Sd Ra Rb Rc Rd.
  destruct Ia as [Ia Sa], Ib as [Ib Sb], Ic as [Ic Sc], Id as [Id Sd].
  split; [tauto |].
  destruct Sa as [-> | Sa], Sb as [-> | Sb], Sc as [-> | Sc], Sd as [-> | Sd];
    try (left; reflexivity); right; lia.
Qed.

Lemma boundsSlack_nonneg (r : Rect.t) : rectInRange r -> 0 <= boundsSlack r.
Proof.
  intros (Ha & Hb & _). unfold boundsSlack.
  pose proof (lowSlack_nonneg _ Ha). pose proof (lowSlack_nonneg _ Hb).
  pose proof (highSlack_nonneg (Int.sub width 1) (Rect.x1 r)).
  pose proof (highSlack_nonneg (Int.sub height 1) (Rect.y1 r)). lia.
Qed.

Lemma boundsLoop_total (fuel : nat) (r : Rect.t) :
  rectInRange r -> boundsSlack r < Z.of_nat fuel ->
  exists r', boundsLoop width height fuel frame color r = Some r' /\ rectInRange r'.
Proof.
  revert r. induction fuel as [| fuel IH]; intros r Hr Hs.
  - pose proof (boundsSlack_nonneg r Hr). lia.
  - cbn [boundsLoop].
    destruct (boundsPass_slack r Hr) as [Hp [Hsame | Hless]].
    + rewrite Hsame.
      replace (Rect.neqb r r) with false
        by (symmetry; apply rect_neqb_false; reflexivity).
      exists r. split; [reflexivity | exact Hr].
    + destruct (Rect.neqb r (boundsPass width height frame color r)).
      * apply IH; [exact Hp | lia].
      * exists r. split; [reflexivity | exact Hr].
Qed.

(** On a screen and a rectangle of [int]s, [findColorBounds] returns. *)
Lemma findColorBounds_total (rect : Rect.t) :
  rectInRange rect ->
  exists changed r,
    findColorBounds width height frame rect color = Some (changed, r)
    /\ rectInRange r.
Proof.
  intros Hr.
  destruct (boundsLoop_total (boundsFuel width height rect) rect Hr) as (r' & E & Hr').
  { unfold boundsFuel. fold (boundsSlack rect).
    pose proof (boundsSlack_nonneg rect Hr).
    rewrite Nat2Z.inj_succ, Z2Nat.id by lia. lia. }
  unfold findColorBounds. rewrite E. cbn [bind].
  destruct (Rect.neqb rect r'); eauto.
Qed.

End FinderTotal.

(** And so does [checkForBall]. *)
Lemma checkForBall_total (width height : Z) (frame : GameFrame)
  (x y : Z) (ball : Rect.t) :
  Int.min_signed < width <= Int.max_signed ->
  Int.min_signed < height <= Int.max_signed ->
  Int.in_range x -> Int.in_range y -> rectInRange ball ->
  exists found b,
    checkForBall width height frame x y ball = Some (found, b) /\ rectInRange b.
Proof.
  intros Hw Hh Hx Hy Hb. unfold checkForBall.
  destruct (Pixel.neqb (frame x y) ballColor); [eauto |].
  destruct (findColorBounds_total width height Hw Hh frame ballColor
              (Rect.mk x y (Int.add x 1) (Int.add y 1)))
    as (changed & r & E & Hr).
  { repeat split; try apply Hx; try apply Hy; apply int_wrap_range. }
  rewrite E. cbn [bind].
  destruct changed; [| eauto].
  destruct ((4 <? Rect.width r) && (4 <? Rect.height r)
            && (Rect.width r =? Rect.height r)); [| eauto].
  destruct (ballCorners frame r && ballEdges frame r); eauto.
Qed.

Section FindBallTotal.

Variable g : Game.t.
Variable frame : GameFrame.
Variable zone : Rect.t.

Hypothesis width_int : Int.min_signed < Game.width g <= Int.max_signed.
Hypothesis height_int : Int.min_signed < Game.height g <= Int.max_signed.
Hypothesis ball_int : rectInRange (Game.ball g).

(** The grid scan stays inside the [int] range. *)
Hypothesis zone_x0 : Int.in_range (Rect.x0 zone).
Hypothesis zone_y0 : Int.in_range (Rect.y0 zone).
Hypothesis zone_x1 :
  Rect.x1 zone + Z.max 1 (Int.div (Rect.width (Game.ball g)) 2) <= Int.max_signed.
Hypothesis zone_y1 :
  Rect.y1 zone + Z.max 1 (Int.div (Rect.height (Game.ball g)) 2) <= Int.max_signed.

Lemma check_total (x y : Z) (b : Rect.t) :
  Int.in_range x -> Int.in_range y -> rectInRange b ->
  exists found b', Game.check g frame x y b = Some (found, b') /\ rectInRange b'.
Proof.
  intros Hx Hy Hb. unfold Game.check.
  exact (checkForBall_total (Game.width g) (Game.height g) frame x y b
           width_int height_int Hx Hy Hb).
Qed.

Lemma orElse_total (m : option (bool * Rect.t))
  (k : Rect.t -> option (bool * Rect.t)) :
  (exists found b, m = Some (found, b) /\ rectInRange b) ->
  (forall b, rectInRange b ->
             exists found b', k b = Some (found, b') /\ rectInRange b') ->
  exists found b, Game.orElse m k = Some (found, b) /\ rectInRange b.
Proof.
  intros (found & b & -> & Hb) Hk. unfold Game.orElse. cbn [bind].
  destruct found; [eauto | apply Hk; exact Hb].
Qed.

Lemma reacquire_total (b : Rect.t) :
  rectInRange b ->
  exists found b', Game.reacquire g frame b = Some (found, b') /\ rectInRange b'.
Proof.
  intros Hb. unfold Game.reacquire.
  apply orElse_total; [apply orElse_total; [apply orElse_total |] |].
  - apply check_total; [apply int_wrap_range | apply Hb | exact Hb].
  - intros b1 H1. apply check_total; [apply H1 | apply int_wrap_range | exact H1].
  - intros b1 H1. apply check_total; [apply int_wrap_range | apply H1 | exact H1].
  - intros b1 H1. apply check_total; [apply H1 | apply int_wrap_range | exact H1].
Qed.

Lemma scanRow_total (fuel : nat) (y x : Z) (b : Rect.t) :
  Int.in_range y -> Int.in_range x -> rectInRange b ->
  Z.max 0 (Rect.x1 zone - x) < Z.of_nat fuel ->
  exists found b', Game.scanRow g frame zone fuel y x b = Some (found, b')
                   /\ rectInRange b'.
Proof.
  intros Hy. revert x b. induction fuel as [| fuel IH]; intros x b Hx Hb Hfuel.
  - lia.
  - cbn [Game.scanRow].
    destruct (Z.ltb_spec x (Rect.x1 zone)) as [Hlt | Hge]; [| eauto].
    assert (Hnext : Int.add x (Z.max 1 (Int.div (Rect.width (Game.ball g)) 2))
                    = x + Z.max 1 (Int.div (Rect.width (Game.ball g)) 2)).
    { int_small. reflexivity. }
    assert (Hchk : exists found b',
               (if negb (Rect.contains b x y) then Game.check g frame x y b
                else Some (false, b)) = Some (found, b') /\ rectInRange b').
    { destruct (negb (Rect.contains b x y)); [| eauto].
      apply check_total; assumption. }
    destruct Hchk as (found & b' & -> & Hb'). cbn [bind].
    destruct found; [eauto |].
    apply IH; [rewrite Hnext; int_range | exact Hb' | rewrite Hnext; lia].
Qed.

Lemma scanRows_total (fuel : nat) (y : Z) (b : Rect.t) :
  Int.in_range y -> rectInRange b ->
  Z.max 0 (Rect.y1 zone - y) < Z.of_nat fuel ->
  exists found b', Game.scanRows g frame zone fuel y b = Some (found, b')
                   /\ rectInRange b'.
Proof.
  revert y b. induction fuel as [| fuel IH]; intros y b Hy Hb Hfuel.
  - lia.
  - cbn [Game.scanRows].
    destruct (Z.ltb_spec y (Rect.y1 zone)) as [Hlt | Hge]; [| eauto].
    assert (Hnext : Int.add y (Z.max 1 (Int.div (Rect.height (Game.ball g)) 2))
                    = y + Z.max 1 (Int.div (Rect.height (Game.ball g)) 2)).
    { int_small. reflexivity. }
    destruct (scanRow_total (Game.rowFuel zone) y (Rect.x0 zone) b Hy zone_x0 Hb)
      as (found & b' & -> & Hb').
    { unfold Game.rowFuel. lia. }
    cbn [bind]. destruct found; [eauto |].
    apply IH; [rewrite Hnext; int_range | exact Hb' | rewrite Hnext; lia].
Qed.

(** With a screen, a ball box and a zone that keep the scan inside the
    [int] range, [findBall] returns. *)
Lemma findBall_total (now : Z) :
  exists found g', Game.findBall g frame zone now = Some (found, g').
Proof.
  unfold Game.findBall.
  destruct (reacquire_total (Game.ball g) ball_int) as (found & b & -> & Hb).
  cbn [bind]. destruct found; [eauto |].
  destruct (scanRows_total (Game.rowsFuel zone) (Rect.y0 zone) (Game.ball g)
              zone_y0 ball_int) as (found & b' & -> & Hb').
  { unfold Game.rowsFuel. lia. }
  cbn [bind]. destruct found; eauto.
Qed.

End FindBallTotal.

(** On such a game [step] returns. *)
Lemma step_total (g : Game.t) (frame : GameFrame) (tFind tStep : Z) :
  Int.min_signed < Game.width g <= Int.max_signed ->
  Int.min_signed < Game.height g <= Int.max_signed ->
  rectInRange (Game.ball g) ->
  scanFits g (wholeScreen g) -> scanFits g (Game.field g) ->
  exists keepPlaying g' ev,
    Game.step g frame tFind tStep = Some (keepPlaying, g', ev).
Proof.
  intros Hw Hh Hb (Sx0 & Sy0 & Sx1 & Sy1) (Fx0 & Fy0 & Fx1 & Fy1).
  unfold Game.step.
  destruct (Game.haveField g).
  - cbn [negb].
    destruct (findBall_total g frame (Game.field g) Hw Hh Hb Fx0 Fy0 Fx1 Fy1 tFind)
      as (found & g1 & ->).
    cbn [bind]. destruct found; [| cbn [bind]; eauto].
    cbv zeta.
    destruct (isBallSurrounded _ _ frame _).
    + destruct (negb (Game.hasFired g1)).
      * destruct (Game.fire g1) as [[fired g2] ev]. cbn [bind]. eauto.
      * cbn [bind]. eauto.
    + cbn [bind]. eauto.
  - cbn [negb]. unfold Game.expandField.
    destruct (findBall_total g frame (wholeScreen g) Hw Hh Hb Sx0 Sy0 Sx1 Sy1 tFind)
      as (found & g1 & E).
    unfold wholeScreen in E. rewrite E. cbn [bind].
    destruct found; cbn [negb].
    + destruct (Rect.x1 (Game.field g1) =? 0); cbn [bind];
        match goal with
        | |- context [if ?c then _ else _] => destruct c
        end; cbn [bind]; eauto;
        match goal with
        | |- context [if ?c then _ else _] => destruct c
        end; cbn [bind]; eauto.
    + destruct (Rect.x1 (Game.field g1) =? 0); cbn [bind]; eauto.
      match goal with
      | |- context [if ?c then _ else _] => destruct c
      end; cbn [bind]; eauto.
      match goal with
      | |- context [if ?c then _ else _] => destruct c
      end; cbn [bind]; eauto.
Qed.

(** * Further properties *)

(** ** Pixel *)

Lemma byte_testbit_high (x n : Z) : 0 <= x < 256 -> 8 <= n -> Z.testbit x n = false.
Proof.
  intros Hx Hn. destruct (Z.eq_dec x 0) as [-> | Hne]; [apply Z.testbit_0_l |].
  apply Z.bits_above_log2; [lia |].
  assert (Z.log2 x < 8); [| lia].
  apply Z.log2_lt_pow2; [lia | simpl; lia].
Qed.

Lemma make_testbit (b g r a n : Z) :
  0 <= n ->
  Z.testbit (Pixel.make b g r a) n
  = Z.testbit a (n - 24) || Z.testbit r (n - 16) || Z.testbit g (n - 8) || Z.testbit b n.
Proof.
  intros Hn. unfold Pixel.make.
  rewrite !Z.lor_spec, !Z.shiftl_spec by lia. reflexivity.
Qed.

Lemma mask_testbit (n : Z) : 0 <= n -> Z.testbit 255 n = (n <? 8).
Proof.
  intros Hn. destruct (Z.ltb_spec n 8).
  - assert (n = 0 \/ n = 1 \/ n = 2 \/ n = 3 \/ n = 4 \/ n = 5 \/ n = 6 \/ n = 7) by lia.
    intuition (subst; reflexivity).
  - apply byte_testbit_high; lia.
Qed.

(** X1: a pixel built from four bytes gives each byte back through its
    channel accessor: red, green, blue and the fourth channel. *)
Theorem pixel_channels_round_trip (b g r a : Z) :
  0 <= b < 256 -> 0 <= g < 256 -> 0 <= r < 256 -> 0 <= a < 256 ->
  Pixel.r (Pixel.make b g r a) = r
  /\ Pixel.g (Pixel.make b g r a) = g
  /\ Pixel.b (Pixel.make b g r a) = b
  /\ Pixel.a (Pixel.make b g r a) = a.
Proof.
  intros Hb Hg Hr Ha.
  unfold Pixel.r, Pixel.g, Pixel.b, Pixel.a.
  repeat split; apply Z.bits_inj'; intros n Hn;
    rewrite ?Z.land_spec, ?Z.shiftr_spec, ?make_testbit, ?mask_testbit by lia.
  - destruct (Z.ltb_spec n 8).
    + rewrite (Z.testbit_neg_r a) by lia.
      rewrite (byte_testbit_high g) by lia. rewrite (byte_testbit_high b) by lia.
      replace (n + 16 - 16) with n by lia. rewrite andb_true_r, !orb_false_r. reflexivity.
    + rewrite andb_false_r. symmetry. apply byte_testbit_high; lia.
  - destruct (Z.ltb_spec n 8).
    + rewrite (Z.testbit_neg_r a) by lia. rewrite (Z.testbit_neg_r r) by lia.
      rewrite (byte_testbit_high b) by lia.
      replace (n + 8 - 8) with n by lia. rewrite andb_true_r, !orb_false_r. reflexivity.
    + rewrite andb_false_r. symmetry. apply byte_testbit_high; lia.
  - destruct (Z.ltb_spec n 8).
    + rewrite (Z.testbit_neg_r a) by lia. rewrite (Z.testbit_neg_r r) by lia.
      rewrite (Z.testbit_neg_r g) by lia.
      rewrite andb_true_r. reflexivity.
    + rewrite andb_false_r. symmetry. apply byte_testbit_high; lia.
  - replace (n + 24 - 24) with n by lia.
    rewrite (byte_testbit_high r) by lia. rewrite (byte_testbit_high g) by lia.
    rewrite (byte_testbit_high b) by lia. rewrite !orb_false_r. reflexivity.
Qed.

Lemma pixel_channels_round_trip_witness :
  Pixel.r fieldColor = 251 /\ Pixel.g fieldColor = 249
  /\ Pixel.b fieldColor = 246 /\ Pixel.a fieldColor = 0.
Proof.
  apply (pixel_channels_round_trip 246 249 251 0); lia.
Defined.

(** ** Further properties of Rect *)

(** X2: after [a.add(b)] the receiver is the bounding box of both: it covers
    [a] and [b], every rectangle that covers both covers it, and every point
    that [a] or [b] contains it contains. *)
Theorem rect_add_bounding_box (a b : Rect.t) :
  within a (Rect.add a b) /\ within b (Rect.add a b)
  /\ (forall c, within a c -> within b c -> within (Rect.add a b) c)
  /\ (forall x y, Rect.contains a x y = true \/ Rect.contains b x y = true ->
                  Rect.contains (Rect.add a b) x y = true).
Proof.
  unfold within, Rect.add. cbn [Rect.x0 Rect.y0 Rect.x1 Rect.y1].
  repeat split; try lia.
  intros x y. unfold Rect.contains. cbn [Rect.x0 Rect.y0 Rect.x1 Rect.y1].
  rewrite !andb_true_iff, !Z.leb_le, !Z.ltb_lt. lia.
Qed.

Lemma rect_add_bounding_box_witness :
  Rect.contains (Rect.add (Rect.mk 0 0 2 2) (Rect.mk 5 5 9 9)) 6 7 = true.
Proof.
  destruct (rect_add_bounding_box (Rect.mk 0 0 2 2) (Rect.mk 5 5 9 9))
    as (_ & _ & _ & H).
  apply H. right. reflexivity.
Defined.

(** X3: a rectangle of [int]s that is not empty, and whose width and height
    fit an [int], contains its centre; the centre is the near corner plus
    half the extent, rounded down. *)
Theorem rect_center_inside (r : Rect.t) :
  rectInRange r ->
  Rect.x0 r < Rect.x1 r -> Rect.x1 r - Rect.x0 r <= Int.max_signed ->
  Rect.y0 r < Rect.y1 r -> Rect.y1 r - Rect.y0 r <= Int.max_signed ->
  Rect.centerX r = Rect.x0 r + (Rect.x1 r - Rect.x0 r) / 2
  /\ Rect.centerY r = Rect.y0 r + (Rect.y1 r - Rect.y0 r) / 2
  /\ Rect.contains r (Rect.centerX r) (Rect.centerY r) = true.
Proof.
  intros (Ha & Hb & Hc & Hd) Hx Hw Hy Hh. destruct r as [a b c d].
  cbn [Rect.x0 Rect.y0 Rect.x1 Rect.y1] in *.
  assert (Ex : Rect.centerX (Rect.mk a b c d) = a + (c - a) / 2).
  { unfold Rect.centerX, Rect.width, Int.div. cbn [Rect.x0 Rect.x1].
    unfold Int.sub at 1. rewrite int_wrap_small by int_range.
    rewrite Z.quot_div_nonneg by lia.
    assert (0 <= (c - a) / 2 <= c - a)
      by (split; [apply Z.div_pos | apply Z.div_le_upper_bound]; lia).
    unfold Int.add. rewrite int_wrap_small; [reflexivity | int_range]. }
  assert (Ey : Rect.centerY (Rect.mk a b c d) = b + (d - b) / 2).
  { unfold Rect.centerY, Rect.height, Int.div. cbn [Rect.y0 Rect.y1].
    unfold Int.sub at 1. rewrite int_wrap_small by int_range.
    rewrite Z.quot_div_nonneg by lia.
    assert (0 <= (d - b) / 2 <= d - b)
      by (split; [apply Z.div_pos | apply Z.div_le_upper_bound]; lia).
    unfold Int.add. rewrite int_wrap_small; [reflexivity | int_range]. }
  rewrite Ex, Ey. repeat split.
  unfold Rect.contains. cbn [Rect.x0 Rect.y0 Rect.x1 Rect.y1].
  assert (0 <= (c - a) / 2 < c - a)
    by (split; [apply Z.div_pos | apply Z.div_lt_upper_bound]; lia).
  assert (0 <= (d - b) / 2 < d - b)
    by (split; [apply Z.div_pos | apply Z.div_lt_upper_bound]; lia).
  rewrite !andb_true_iff, !Z.leb_le, !Z.ltb_lt. lia.
Qed.

Lemma rect_center_inside_witness :
  Rect.centerX (Rect.mk 20 20 25 25) = 20 + (25 - 20) / 2
  /\ Rect.centerY (Rect.mk 20 20 25 25) = 20 + (25 - 20) / 2
  /\ Rect.contains (Rect.mk 20 20 25 25) (Rect.centerX (Rect.mk 20 20 25 25))
       (Rect.centerY (Rect.mk 20 20 25 25)) = true.
Proof.
  apply (rect_center_inside (Rect.mk 20 20 25 25));
    unfold rectInRange, Int.in_range, Int.min_signed, Int.max_signed;
    cbn [Rect.x0 Rect.y0 Rect.x1 Rect.y1]; lia.
Defined.

(** ** Further properties of expand *)

Lemma expand_on_screen (width height : Z) (r : Rect.t) :
  width < Int.max_signed -> height < Int.max_signed ->
  onScreen width height r ->
  snd (expand width height r) = grown width height 1 r.
Proof.
  intros HW HH (Hx & Hx1 & Hy & Hy1). destruct r as [a b c d].
  cbn [Rect.x0 Rect.y0 Rect.x1 Rect.y1] in *.
  unfold expand, limit, grown. cbn [snd Rect.x0 Rect.y0 Rect.x1 Rect.y1].
  int_small. apply rect_eq; cbn [Rect.x0 Rect.y0 Rect.x1 Rect.y1]; lia.
Qed.

Lemma grown_on_screen (width height n : Z) (r : Rect.t) :
  0 <= n -> onScreen width height r -> onScreen width height (grown width height n r).
Proof.
  unfold onScreen, grown. cbn [Rect.x0 Rect.y0 Rect.x1 Rect.y1]. lia.
Qed.

Lemma expansions_succ (width height : Z) (n : nat) (r : Rect.t) :
  expansions width height (S n) r
  = snd (expand width height (expansions width height n r)).
Proof. reflexivity. Qed.

Lemma expansions_grown (width height : Z) (n : nat) (r : Rect.t) :
  width < Int.max_signed -> height < Int.max_signed ->
  onScreen width height r ->
  expansions width height n r = grown width height (Z.of_nat n) r.
Proof.
  intros HW HH Hr. induction n as [| n IH].
  - change (expansions width height 0 r) with r.
    unfold grown, onScreen in *.
    apply rect_eq; cbn [Rect.x0 Rect.y0 Rect.x1 Rect.y1]; lia.
  - rewrite expansions_succ, IH.
    rewrite expand_on_screen by first [assumption | apply grown_on_screen; [lia | assumption]].
    unfold grown, onScreen in *. cbn [Rect.x0 Rect.y0 Rect.x1 Rect.y1].
    apply rect_eq; cbn [Rect.x0 Rect.y0 Rect.x1 Rect.y1]; lia.
Qed.

(** X4: on a rectangle that lies on the screen, [n] calls of [expand] move
    every side [n] pixels outwards, stopped at the border of the screen; the
    result lies on the screen and covers the rectangle. *)
Theorem expand_repeated (width height : Z) (n : nat) (r : Rect.t) :
  width < Int.max_signed -> height < Int.max_signed ->
  onScreen width height r ->
  expansions width height n r
  = Rect.mk (Z.max 0 (Rect.x0 r - Z.of_nat n)) (Z.max 0 (Rect.y0 r - Z.of_nat n))
            (Z.min width (Rect.x1 r + Z.of_nat n))
            (Z.min height (Rect.y1 r + Z.of_nat n))
  /\ onScreen width height (expansions width height n r)
  /\ within r (expansions width height n r).
Proof.
  intros HW HH Hr. rewrite expansions_grown by assumption.
  split; [reflexivity |]. split; [apply grown_on_screen; [lia | assumption] |].
  unfold within, grown, onScreen in *. cbn [Rect.x0 Rect.y0 Rect.x1 Rect.y1]. lia.
Qed.

Lemma expand_repeated_witness :
  expansions 64 64 4 (Rect.mk 2 20 25 62)
  = Rect.mk (Z.max 0 (2 - Z.of_nat 4)) (Z.max 0 (20 - Z.of_nat 4))
            (Z.min 64 (25 + Z.of_nat 4)) (Z.min 64 (62 + Z.of_nat 4))
  /\ onScreen 64 64 (expansions 64 64 4 (Rect.mk 2 20 25 62))
  /\ within (Rect.mk 2 20 25 62) (expansions 64 64 4 (Rect.mk 2 20 25 62)).
Proof.
  apply (expand_repeated 64 64 4 (Rect.mk 2 20 25 62));
    unfold onScreen, Int.max_signed; cbn [Rect.x0 Rect.y0 Rect.x1 Rect.y1]; lia.
Defined.

(** X5: [expand] returns false exactly when the rectangle it leaves is the
    whole screen; on a rectangle that lies on the screen this happens from
    the call on that brings every side to the border, and the whole screen
    stays as it is. *)
Theorem expand_until_whole_screen (width height : Z) (n : nat) (r : Rect.t) :
  width < Int.max_signed -> height < Int.max_signed ->
  onScreen width height r ->
  (fst (expand width height r) = false
   <-> snd (expand width height r) = Rect.mk 0 0 width height)
  /\ (Rect.x0 r <= Z.of_nat n -> Rect.y0 r <= Z.of_nat n ->
      width - Rect.x1 r <= Z.of_nat n -> height - Rect.y1 r <= Z.of_nat n ->
      expansions width height n r = Rect.mk 0 0 width height
      /\ expand width height (expansions width height n r)
         = (false, Rect.mk 0 0 width height)).
Proof.
  intros HW HH Hr. split.
  - unfold expand. cbn [fst snd].
    rewrite !orb_false_iff, !negb_false_iff, !Z.eqb_eq.
    split.
    + intros (((E0 & E1) & E2) & E3). apply rect_eq; assumption.
    + intros E. rewrite E. repeat split.
  - intros H0 H1 H2 H3.
    assert (E : expansions width height n r = Rect.mk 0 0 width height).
    { rewrite expansions_grown by assumption.
      unfold grown, onScreen in *.
      apply rect_eq; cbn [Rect.x0 Rect.y0 Rect.x1 Rect.y1]; lia. }
    split; [exact E |]. rewrite E.
    assert (Hs : onScreen width height (Rect.mk 0 0 width height)).
    { unfold onScreen in *. cbn [Rect.x0 Rect.y0 Rect.x1 Rect.y1]. lia. }
    pose proof (expand_on_screen width height _ HW HH Hs) as E'.
    assert (E'' : grown width height 1 (Rect.mk 0 0 width height)
                  = Rect.mk 0 0 width height).
    { unfold grown, onScreen in *.
      apply rect_eq; cbn [Rect.x0 Rect.y0 Rect.x1 Rect.y1]; lia. }
    rewrite E'' in E'. 
    destruct (expand width height (Rect.mk 0 0 width height)) as [ret r'] eqn:Ex.
    cbn [snd] in E'. subst r'. f_equal.
    assert (Hret : fst (expand width height (Rect.mk 0 0 width height)) = false).
    { unfold expand at 1. cbn [fst].
      change (limit width height _) with
        (snd (expand width height (Rect.mk 0 0 width height))).
      rewrite Ex. cbn [snd Rect.x0 Rect.y0 Rect.x1 Rect.y1].
      rewrite !Z.eqb_refl. reflexivity. }
    rewrite Ex in Hret. exact Hret.
Qed.

Lemma expand_until_whole_screen_witness :
  expansions 10 10 7 (Rect.mk 3 4 6 7) = Rect.mk 0 0 10 10
  /\ expand 10 10 (expansions 10 10 7 (Rect.mk 3 4 6 7)) = (false, Rect.mk 0 0 10 10).
Proof.
  destruct (expand_until_whole_screen 10 10 7 (Rect.mk 3 4 6 7)) as [_ H].
  - unfold Int.max_signed. lia.
  - unfold Int.max_signed. lia.
  - unfold onScreen. cbn [Rect.x0 Rect.y0 Rect.x1 Rect.y1]. lia.
  - apply H; cbn [Rect.x0 Rect.y0 Rect.x1 Rect.y1]; lia.
Defined.

(** ** Further properties of the region finder *)

Lemma anyInRange_false (lo hi : Z) (p : Z -> bool) :
  anyInRange lo hi p = false -> forall j, lo <= j < hi -> p j = false.
Proof.
  intros H j Hj. destruct (p j) eqn:E; [| reflexivity].
  rewrite <- H. symmetry. apply anyInRange_true. exists j. split; assumption.
Qed.

Lemma line_scan (lo hi : Z) (p : Z -> Pixel.t) (color : Pixel.t) :
  (anyInRange lo hi (fun j => Pixel.eqb (p j) color) = true
   /\ exists j, lo <= j < hi /\ p j = color)
  \/ (anyInRange lo hi (fun j => Pixel.eqb (p j) color) = false
      /\ forall j, lo <= j < hi -> p j <> color).
Proof.
  destruct (anyInRange lo hi (fun j => Pixel.eqb (p j) color)) eqn:E.
  - left. split; [reflexivity |].
    apply anyInRange_true in E as (j & Hj & Hp). exists j.
    split; [exact Hj | apply pixel_eqb_true; exact Hp].
  - right. split; [reflexivity |]. intros j Hj Hp.
    pose proof (anyInRange_false _ _ _ E j Hj) as Hf. cbv beta in Hf.
    apply pixel_eqb_true in Hp. congruence.
Qed.

Section SideFacts.

Variables width height : Z.
Variable frame : GameFrame.
Variable color : Pixel.t.

Lemma growLeft_spec (r : Rect.t) :
  let c := Z.max 0 (Int.sub (Rect.x0 r) 1) in
  (growLeft frame color r = Rect.set_x0 r c
   /\ exists y, Rect.y0 r <= y < Rect.y1 r /\ frame c y = color)
  \/ (growLeft frame color r = r
      /\ forall y, Rect.y0 r <= y < Rect.y1 r -> frame c y <> color).
Proof.
  cbv zeta. unfold growLeft, leftContainsColor. cbv zeta.
  destruct r as [a b c d]. cbn [Rect.x0 Rect.y0 Rect.x1 Rect.y1 Rect.set_x0].
  destruct (line_scan b d (fun y => frame (Z.max 0 (Int.sub a 1)) y) color)
    as [[E H] | [E H]]; rewrite E; [left | right]; split; auto.
Qed.

Lemma growTop_spec (r : Rect.t) :
  let c := Z.max 0 (Int.sub (Rect.y0 r) 1) in
  (growTop frame color r = Rect.set_y0 r c
   /\ exists x, Rect.x0 r <= x < Rect.x1 r /\ frame x c = color)
  \/ (growTop frame color r = r
      /\ forall x, Rect.x0 r <= x < Rect.x1 r -> frame x c <> color).
Proof.
  cbv zeta. unfold growTop, topContainsColor. cbv zeta.
  destruct r as [a b c d]. cbn [Rect.x0 Rect.y0 Rect.x1 Rect.y1 Rect.set_y0].
  destruct (line_scan a c (fun x => frame x (Z.max 0 (Int.sub b 1))) color)
    as [[E H] | [E H]]; rewrite E; [left | right]; split; auto.
Qed.

Lemma growRight_spec (r : Rect.t) :
  let c := Z.min (Int.sub width 1) (Int.add (Rect.x1 r) 1) in
  (growRight width frame color r = Rect.set_x1 r c
   /\ exists y, Rect.y0 r <= y < Rect.y1 r /\ frame c y = color)
  \/ (growRight width frame color r = r
      /\ forall y, Rect.y0 r <= y < Rect.y1 r -> frame c y <> color).
Proof.
  cbv zeta. unfold growRight, rightContainsColor. cbv zeta.
  destruct r as [a b c d]. cbn [Rect.x0 Rect.y0 Rect.x1 Rect.y1 Rect.set_x1].
  destruct (line_scan b d
              (fun y => frame (Z.min (Int.sub width 1) (Int.add c 1)) y) color)
    as [[E H] | [E H]]; rewrite E; [left | right]; split; auto.
Qed.

Lemma growBottom_spec (r : Rect.t) :
  let c := Z.min (Int.sub height 1) (Int.add (Rect.y1 r) 1) in
  (growBottom height frame color r = Rect.set_y1 r c
   /\ exists x, Rect.x0 r <= x < Rect.x1 r /\ frame x c = color)
  \/ (growBottom height frame color r = r
      /\ forall x, Rect.x0 r <= x < Rect.x1 r -> frame x c <> color).
Proof.
  cbv zeta. unfold growBottom, bottomContainsColor. cbv zeta.
  destruct r as [a b c d]. cbn [Rect.x0 Rect.y0 Rect.x1 Rect.y1 Rect.set_y1].
  destruct (line_scan a c
              (fun x => frame x (Z.min (Int.sub height 1) (Int.add d 1))) color)
    as [[E H] | [E H]]; rewrite E; [left | right]; split; auto.
Qed.

(** What a pass does to each side: it moves the side to its candidate line,
    on which it saw the colour, or leaves it, having seen no colour there. *)
Lemma boundsPass_moves (r : Rect.t) :
  let p := boundsPass width height frame color r in
  let cl := Z.max 0 (Int.sub (Rect.x0 r) 1) in
  let ct := Z.max 0 (Int.sub (Rect.y0 r) 1) in
  let cr := Z.min (Int.sub width 1) (Int.add (Rect.x1 r) 1) in
  let cb := Z.min (Int.sub height 1) (Int.add (Rect.y1 r) 1) in
  ((Rect.x0 p = cl /\ exists y, Rect.y0 r <= y < Rect.y1 r /\ frame cl y = color)
   \/ (Rect.x0 p = Rect.x0 r
       /\ forall y, Rect.y0 r <= y < Rect.y1 r -> frame cl y <> color))
  /\ ((Rect.y0 p = ct /\ exists x, Rect.x0 p <= x < Rect.x1 r /\ frame x ct = color)
      \/ (Rect.y0 p = Rect.y0 r
          /\ forall x, Rect.x0 p <= x < Rect.x1 r -> frame x ct <> color))
  /\ ((Rect.x1 p = cr /\ exists y, Rect.y0 p <= y < Rect.y1 r /\ frame cr y = color)
      \/ (Rect.x1 p = Rect.x1 r
          /\ forall y, Rect.y0 p <= y < Rect.y1 r -> frame cr y <> color))
  /\ ((Rect.y1 p = cb /\ exists x, Rect.x0 p <= x < Rect.x1 p /\ frame x cb = color)
      \/ (Rect.y1 p = Rect.y1 r
          /\ forall x, Rect.x0 p <= x < Rect.x1 p -> frame x cb <> color)).
Proof.
  cbv zeta. rewrite boundsPass_sides.
  pose proof (growLeft_spec r) as S1.
  pose proof (growTop_spec (growLeft frame color r)) as S2.
  pose proof (growRight_spec (growTop frame color (growLeft frame color r))) as S3.
  pose proof (growBottom_spec
                (growRight width frame color
                   (growTop frame color (growLeft frame color r)))) as S4.
  cbv zeta in S1, S2, S3, S4.
  destruct S1 as [[E1 H1] | [E1 H1]]; rewrite E1 in *;
    destruct S2 as [[E2 H2] | [E2 H2]]; rewrite E2 in *;
    destruct S3 as [[E3 H3] | [E3 H3]]; rewrite E3 in *;
    destruct S4 as [[E4 H4] | [E4 H4]]; rewrite E4 in *;
    clear E1 E2 E3 E4; destruct r as [a b c d];
    cbn [Rect.x0 Rect.y0 Rect.x1 Rect.y1
         Rect.set_x0 Rect.set_y0 Rect.set_x1 Rect.set_y1] in *;
    repeat split; auto.
Qed.

End SideFacts.

Lemma boundsLoop_invariant (width height : Z) (frame : GameFrame) (color : Pixel.t)
  (P : Rect.t -> Prop) :
  (forall r, P r -> P (boundsPass width height frame color r)) ->
  forall fuel r r',
    P r -> boundsLoop width height fuel frame color r = Some r' -> P r'.
Proof.
  intros Hstep fuel. induction fuel as [| fuel IH]; intros r r' Hr; cbn [boundsLoop];
    [discriminate |].
  destruct (Rect.neqb r (boundsPass width height frame color r)).
  - apply IH. apply Hstep. exact Hr.
  - intros H. injection H as <-. exact Hr.
Qed.

(** X6: on a screen and a rectangle of [int]s the [do ... while] of
    [findColorBounds] ends: the call returns, and the rectangle it leaves is
    one of [int]s. *)
Theorem findColorBounds_returns
  (width height : Z) (frame : GameFrame) (rect : Rect.t) (color : Pixel.t) :
  Int.min_signed < width <= Int.max_signed ->
  Int.min_signed < height <= Int.max_signed ->
  rectInRange rect ->
  exists changed r,
    findColorBounds width height frame rect color = Some (changed, r)
    /\ rectInRange r.
Proof.
  intros Hw Hh Hr. exact (findColorBounds_total width height Hw Hh frame color rect Hr).
Qed.

Lemma findColorBounds_returns_witness :
  exists changed r,
    findColorBounds 64 64 (tokenFrame 4) (Rect.mk 22 20 23 21) ballColor
    = Some (changed, r) /\ rectInRange r.
Proof.
  apply (findColorBounds_returns 64 64 (tokenFrame 4) (Rect.mk 22 20 23 21) ballColor);
    unfold rectInRange; cbn [Rect.x0 Rect.y0 Rect.x1 Rect.y1]; int_range.
Defined.

(** X7: on any raster, when [findColorBounds] has returned, a second call on
    the rectangle it left returns false and leaves the same rectangle. *)
Theorem findColorBounds_second_run
  (width height : Z) (frame : GameFrame) (rect r : Rect.t) (color : Pixel.t)
  (changed : bool) :
  findColorBounds width height frame rect color = Some (changed, r) ->
  findColorBounds width height frame r color = Some (false, r).
Proof. apply findColorBounds_again. Qed.

Lemma findColorBounds_second_run_witness :
  findColorBounds 64 64 (tokenFrame 4) (Rect.mk 20 20 25 25) ballColor
  = Some (false, Rect.mk 20 20 25 25).
Proof.
  apply (findColorBounds_second_run 64 64 (tokenFrame 4) (Rect.mk 22 20 23 21)
           (Rect.mk 20 20 25 25) ballColor true).
  vm_compute. reflexivity.
Defined.

Section FinderGrowth.

Variables width height : Z.
Hypothesis width_int : Int.min_signed < width <= Int.max_signed.
Hypothesis height_int : Int.min_signed < height <= Int.max_signed.
Variable frame : GameFrame.
Variable color : Pixel.t.

(** The start: a rectangle of [int]s whose sides are on pixel lines of the
    screen. *)
Variable start : Rect.t.
Hypothesis start_int : rectInRange start.
Hypothesis start_x0 : 0 <= Rect.x0 start.
Hypothesis start_y0 : 0 <= Rect.y0 start.
Hypothesis start_x1 : Rect.x1 start <= width - 1.
Hypothesis start_y1 : Rect.y1 start <= height - 1.

Local Abbreviation growthInv := (growthInv width height start).
Local Abbreviation touchInv := (touchInv frame color start).
Local Abbreviation pass := (boundsPass width height frame color).

Lemma growthInv_pass (r : Rect.t) :
  growthInv r -> growthInv (pass r) /\ within r (pass r).
Proof.
  intros ((Ha & Hb & Hc & Hd) & (W0 & W1 & W2 & W3) & B0 & B1 & B2 & B3).
  pose proof (boundsPass_coords width height width_int height_int frame color r)
    as (P0 & P1 & P2 & P3).
  cbv zeta in P0, P1, P2, P3.
  destruct start as [sa sb sc sd], r as [a b c d].
  destruct (boundsPass width height frame color (Rect.mk a b c d)) as [a' b' c' d'].
  unfold growthInv, within, rectInRange in *.
  cbn [Rect.x0 Rect.y0 Rect.x1 Rect.y1] in *.
  assert (Ea : a' = a \/ a' = Z.max 0 (a - 1)).
  { destruct P0 as [-> | ->]; [left; reflexivity | right]. int_small. reflexivity. }
  assert (Eb : b' = b \/ b' = Z.max 0 (b - 1)).
  { destruct P1 as [-> | ->]; [left; reflexivity | right]. int_small. reflexivity. }
  assert (Ec : c' = c \/ c' = Z.min (width - 1) (c + 1)).
  { destruct P2 as [-> | ->]; [left; reflexivity | right]. int_small. reflexivity. }
  assert (Ed : d' = d \/ d' = Z.min (height - 1) (d + 1)).
  { destruct P3 as [-> | ->]; [left; reflexivity | right]. int_small. reflexivity. }
  clear P0 P1 P2 P3.
  assert (Ra : Int.in_range a' /\ 0 <= a' <= a) by (destruct Ea as [-> | ->]; int_range).
  assert (Rb : Int.in_range b' /\ 0 <= b' <= b) by (destruct Eb as [-> | ->]; int_range).
  assert (Rc : Int.in_range c' /\ c <= c' <= width - 1)
    by (destruct Ec as [-> | ->]; int_range).
  assert (Rd : Int.in_range d' /\ d <= d' <= height - 1)
    by (destruct Ed as [-> | ->]; int_range).
  clear Ea Eb Ec Ed. intuition lia.
Qed.

Lemma touchInv_pass (r : Rect.t) :
  growthInv r -> touchInv r -> touchInv (pass r).
Proof.
  intros Hg (T0 & T1 & T2 & T3).
  destruct (growthInv_pass r Hg) as [_ (W0 & W1 & W2 & W3)].
  pose proof (boundsPass_moves width height frame color r) as (M0 & M1 & M2 & M3).
  cbv zeta in M0, M1, M2, M3.
  set (p := boundsPass width height frame color r) in *. clearbody p.
  unfold touchInv. repeat split.
  - destruct M0 as [[E (y & Hy & Hc)] | [E _]].
    + right. exists y. split; [lia | rewrite E; exact Hc].
    + rewrite E. destruct T0 as [T0 | (y & Hy & Hc)]; [left; exact T0 |].
      right. exists y. split; [lia | exact Hc].
  - destruct M1 as [[E (x & Hx & Hc)] | [E _]].
    + right. exists x. split; [lia | rewrite E; exact Hc].
    + rewrite E. destruct T1 as [T1 | (x & Hx & Hc)]; [left; exact T1 |].
      right. exists x. split; [lia | exact Hc].
  - destruct M2 as [[E (y & Hy & Hc)] | [E _]].
    + right. exists y. split; [lia | rewrite E; exact Hc].
    + rewrite E. destruct T2 as [T2 | (y & Hy & Hc)]; [left; exact T2 |].
      right. exists y. split; [lia | exact Hc].
  - destruct M3 as [[E (x & Hx & Hc)] | [E _]].
    + right. exists x. split; [lia | rewrite E; exact Hc].
    + rewrite E. destruct T3 as [T3 | (x & Hx & Hc)]; [left; exact T3 |].
      right. exists x. split; [lia | exact Hc].
Qed.

Lemma growthInv_start : growthInv start /\ touchInv start.
Proof.
  unfold growthInv, touchInv, within. repeat split; try lia; try apply start_int; auto.
Qed.

Lemma findColorBounds_inv (changed : bool) (r : Rect.t) :
  findColorBounds width height frame start color = Some (changed, r) ->
  growthInv r /\ touchInv r.
Proof.
  intros H. apply findColorBounds_result in H as [H _].
  apply (boundsLoop_invariant width height frame color
           (fun r => growthInv r /\ touchInv r)) in H.
  - exact H.
  - intros r0 [Hg Ht]. split; [apply growthInv_pass; exact Hg |].
    apply touchInv_pass; assumption.
  - exact growthInv_start.
Qed.

(** X8: run from a rectangle of [int]s whose sides are on pixel lines of the
    screen, [findColorBounds] only moves sides outwards and never off the
    screen: the rectangle it leaves covers the one it was given and has its
    sides between 0 and [width - 1], [height - 1]. *)
Theorem findColorBounds_grows (changed : bool) (r : Rect.t) :
  findColorBounds width height frame start color = Some (changed, r) ->
  within start r
  /\ 0 <= Rect.x0 r /\ 0 <= Rect.y0 r
  /\ Rect.x1 r <= width - 1 /\ Rect.y1 r <= height - 1.
Proof.
  intros H. apply findColorBounds_inv in H as [(_ & Hw & Hb) _]. tauto.
Qed.

(** X9: under the same conditions every side that [findColorBounds] has
    moved rests on a line on which the rectangle it leaves has a pixel of the
    colour: a column for the left and right sides, over the rows
    [y0 .. y1-1]; a row for the top and bottom sides, over the columns
    [x0 .. x1-1]. *)
Theorem findColorBounds_moved_sides_touch (changed : bool) (r : Rect.t) :
  findColorBounds width height frame start color = Some (changed, r) ->
  (Rect.x0 r <> Rect.x0 start ->
   exists y, Rect.y0 r <= y < Rect.y1 r /\ frame (Rect.x0 r) y = color)
  /\ (Rect.y0 r <> Rect.y0 start ->
      exists x, Rect.x0 r <= x < Rect.x1 r /\ frame x (Rect.y0 r) = color)
  /\ (Rect.x1 r <> Rect.x1 start ->
      exists y, Rect.y0 r <= y < Rect.y1 r /\ frame (Rect.x1 r) y = color)
  /\ (Rect.y1 r <> Rect.y1 start ->
      exists x, Rect.x0 r <= x < Rect.x1 r /\ frame x (Rect.y1 r) = color).
Proof.
  intros H. apply findColorBounds_inv in H as [_ (T0 & T1 & T2 & T3)].
  repeat split; intros Hne;
    [destruct T0 as [E | E] | destruct T1 as [E | E]
     | destruct T2 as [E | E] | destruct T3 as [E | E]];
    try contradiction; exact E.
Qed.

End FinderGrowth.

Lemma findColorBounds_grows_witness :
  within (Rect.mk 22 20 23 21) (Rect.mk 20 20 25 25)
  /\ 0 <= Rect.x0 (Rect.mk 20 20 25 25) /\ 0 <= Rect.y0 (Rect.mk 20 20 25 25)
  /\ Rect.x1 (Rect.mk 20 20 25 25) <= 64 - 1
  /\ Rect.y1 (Rect.mk 20 20 25 25) <= 64 - 1.
Proof.
  apply (findColorBounds_grows 64 64 ltac:(int_range) ltac:(int_range)
           (tokenFrame 4) ballColor (Rect.mk 22 20 23 21)
           ltac:(unfold rectInRange; cbn [Rect.x0 Rect.y0 Rect.x1 Rect.y1]; int_range) ltac:(cbn [Rect.x0 Rect.y0 Rect.x1 Rect.y1]; lia) ltac:(cbn [Rect.x0 Rect.y0 Rect.x1 Rect.y1]; lia)
           ltac:(cbn [Rect.x0 Rect.y0 Rect.x1 Rect.y1]; lia) ltac:(cbn [Rect.x0 Rect.y0 Rect.x1 Rect.y1]; lia) true (Rect.mk 20 20 25 25)).
  vm_compute. reflexivity.
Defined.

Lemma findColorBounds_moved_sides_touch_witness :
  exists y, 20 <= y < 25 /\ tokenFrame 4 20 y = ballColor.
Proof.
  destruct (findColorBounds_moved_sides_touch 64 64 ltac:(int_range) ltac:(int_range)
              (tokenFrame 4) ballColor (Rect.mk 22 20 23 21)
              ltac:(unfold rectInRange; cbn [Rect.x0 Rect.y0 Rect.x1 Rect.y1]; int_range) ltac:(cbn [Rect.x0 Rect.y0 Rect.x1 Rect.y1]; lia) ltac:(cbn [Rect.x0 Rect.y0 Rect.x1 Rect.y1]; lia)
              ltac:(cbn [Rect.x0 Rect.y0 Rect.x1 Rect.y1]; lia) ltac:(cbn [Rect.x0 Rect.y0 Rect.x1 Rect.y1]; lia) true (Rect.mk 20 20 25 25))
    as [H _].
  - vm_compute. reflexivity.
  - apply H; cbn [Rect.x0 Rect.y0 Rect.x1 Rect.y1]; lia.
Defined.

(** X10: the rectangle [findColorBounds] leaves cannot be extended: unless a
    side is at the border of the screen, the line one pixel outside it has no
    pixel of the colour along the rectangle. *)
Theorem findColorBounds_maximal
  (width height : Z) (frame : GameFrame) (rect r : Rect.t) (color : Pixel.t)
  (changed : bool) :
  Int.min_signed < width <= Int.max_signed ->
  Int.min_signed < height <= Int.max_signed ->
  rectInRange rect ->
  findColorBounds width height frame rect color = Some (changed, r) ->
  (0 < Rect.x0 r ->
   forall y, Rect.y0 r <= y < Rect.y1 r -> frame (Rect.x0 r - 1) y <> color)
  /\ (0 < Rect.y0 r ->
      forall x, Rect.x0 r <= x < Rect.x1 r -> frame x (Rect.y0 r - 1) <> color)
  /\ (Rect.x1 r < width - 1 ->
      forall y, Rect.y0 r <= y < Rect.y1 r -> frame (Rect.x1 r + 1) y <> color)
  /\ (Rect.y1 r < height - 1 ->
      forall x, Rect.x0 r <= x < Rect.x1 r -> frame x (Rect.y1 r + 1) <> color).
Proof.
  intros Hw Hh Hrect Hfind.
  assert (Hr : rectInRange r).
  { destruct (findColorBounds_total width height Hw Hh frame color rect Hrect)
      as (ch & r2 & E & Hr2).
    rewrite Hfind in E. injection E as _ <-. exact Hr2. }
  apply findColorBounds_result in Hfind as [Hloop _].
  apply boundsLoop_fixed in Hloop.
  pose proof (boundsPass_moves width height frame color r) as (M0 & M1 & M2 & M3).
  cbv zeta in M0, M1, M2, M3. rewrite Hloop in M0, M1, M2, M3.
  destruct Hr as (Ha & Hb & Hc & Hd). destruct r as [a b c d].
  cbn [Rect.x0 Rect.y0 Rect.x1 Rect.y1] in *.
  repeat split.
  - intros Hpos.
    assert (E : Z.max 0 (Int.sub a 1) = a - 1) by (int_small; lia).
    rewrite E in M0. destruct M0 as [[E' _] | [_ M0]]; [lia | exact M0].
  - intros Hpos.
    assert (E : Z.max 0 (Int.sub b 1) = b - 1) by (int_small; lia).
    rewrite E in M1. destruct M1 as [[E' _] | [_ M1]]; [lia | exact M1].
  - intros Hlt.
    assert (E : Z.min (Int.sub width 1) (Int.add c 1) = c + 1) by (int_small; lia).
    rewrite E in M2. destruct M2 as [[E' _] | [_ M2]]; [lia | exact M2].
  - intros Hlt.
    assert (E : Z.min (Int.sub height 1) (Int.add d 1) = d + 1) by (int_small; lia).
    rewrite E in M3. destruct M3 as [[E' _] | [_ M3]]; [lia | exact M3].
Qed.

Lemma findColorBounds_maximal_witness : tokenFrame 4 (20 - 1) 22 <> ballColor.
Proof.
  destruct (findColorBounds_maximal 64 64 (tokenFrame 4) (Rect.mk 22 20 23 21)
              (Rect.mk 20 20 25 25) ballColor true) as [H _].
  - int_range.
  - int_range.
  - unfold rectInRange; cbn [Rect.x0 Rect.y0 Rect.x1 Rect.y1]; int_range.
  - vm_compute. reflexivity.
  - apply H; cbn [Rect.x0 Rect.y0 Rect.x1 Rect.y1]; lia.
Defined.

(** ** Further properties of the ball detector and of findBall *)

Lemma checkForBall_off_colour (width height : Z) (frame : GameFrame)
  (x y : Z) (ball : Rect.t) :
  frame x y <> ballColor ->
  checkForBall width height frame x y ball = Some (false, ball).
Proof.
  intros H. unfold checkForBall.
  replace (Pixel.neqb (frame x y) ballColor) with true
    by (symmetry; apply pixel_neqb_true; exact H).
  reflexivity.
Qed.

Lemma checkForBall_true_shape (width height : Z) (frame : GameFrame)
  (x y : Z) (ball r : Rect.t) :
  checkForBall width height frame x y ball = Some (true, r) -> ballShape frame r.
Proof.
  unfold checkForBall, ballShape.
  destruct (Pixel.neqb (frame x y) ballColor); [discriminate |].
  destruct (findColorBounds width height frame _ ballColor) as [[changed b] |];
    [| discriminate].
  cbn [bind]. destruct changed; [| discriminate].
  destruct ((4 <? Rect.width b) && (4 <? Rect.height b)
            && (Rect.width b =? Rect.height b)) eqn:Esize; [| discriminate].
  destruct (ballCorners frame b && ballEdges frame b) eqn:Eshape; [| discriminate].
  intros H. injection H as <-.
  apply andb_true_iff in Eshape as [Ec Ee].
  apply andb_true_iff in Esize as [Es Esq].
  apply andb_true_iff in Es as [Ew Eh].
  apply Z.ltb_lt in Ew, Eh. apply Z.eqb_eq in Esq. tauto.
Qed.

Lemma orElse_true (m : option (bool * Rect.t))
  (k : Rect.t -> option (bool * Rect.t)) (P : Rect.t -> Prop) (b : Rect.t) :
  Game.orElse m k = Some (true, b) ->
  (m = Some (true, b) -> P b) ->
  (forall b0, k b0 = Some (true, b) -> P b) ->
  P b.
Proof.
  unfold Game.orElse. destruct m as [[found b0] |]; cbn [bind]; [| discriminate].
  destruct found.
  - intros H Hm _. injection H as ->. apply Hm. reflexivity.
  - intros H _ Hk. apply (Hk b0). exact H.
Qed.

Section FindBallFacts.

Variable g : Game.t.
Variable frame : GameFrame.
Variable zone : Rect.t.

Lemma check_true_shape (x y : Z) (b0 b : Rect.t) :
  Game.check g frame x y b0 = Some (true, b) -> ballShape frame b.
Proof.
  unfold Game.check.
  exact (checkForBall_true_shape (Game.width g) (Game.height g) frame x y b0 b).
Qed.

Lemma check_off_colour (x y : Z) (b : Rect.t) :
  frame x y <> ballColor -> Game.check g frame x y b = Some (false, b).
Proof.
  unfold Game.check.
  exact (checkForBall_off_colour (Game.width g) (Game.height g) frame x y b).
Qed.

Lemma reacquire_true_shape (b0 b : Rect.t) :
  Game.reacquire g frame b0 = Some (true, b) -> ballShape frame b.
Proof.
  unfold Game.reacquire. intros H.
  apply (orElse_true _ _ (ballShape frame) _ H); clear H.
  - intros H. apply (orElse_true _ _ (ballShape frame) _ H); clear H.
    + intros H. apply (orElse_true _ _ (ballShape frame) _ H); clear H.
      * exact (check_true_shape _ _ _ _).
      * intros b1. exact (check_true_shape _ _ _ _).
    + intros b1. exact (check_true_shape _ _ _ _).
  - intros b1. exact (check_true_shape _ _ _ _).
Qed.

Lemma scanRow_true_shape (fuel : nat) (y x : Z) (b0 b : Rect.t) :
  Game.scanRow g frame zone fuel y x b0 = Some (true, b) -> ballShape frame b.
Proof.
  revert x b0. induction fuel as [| fuel IH]; intros x b0; cbn [Game.scanRow];
    [discriminate |].
  destruct (x <? Rect.x1 zone); [| discriminate].
  destruct (negb (Rect.contains b0 x y)).
  - destruct (Game.check g frame x y b0) as [[found b1] |] eqn:E; cbn [bind];
      [| discriminate].
    destruct found.
    + intros H. injection H as <-.
      exact (check_true_shape _ _ _ _ E).
    + apply IH.
  - cbn [bind]. apply IH.
Qed.

Lemma scanRows_true_shape (fuel : nat) (y : Z) (b0 b : Rect.t) :
  Game.scanRows g frame zone fuel y b0 = Some (true, b) -> ballShape frame b.
Proof.
  revert y b0. induction fuel as [| fuel IH]; intros y b0; cbn [Game.scanRows];
    [discriminate |].
  destruct (y <? Rect.y1 zone); [| discriminate].
  destruct (Game.scanRow g frame zone (Game.rowFuel zone) y (Rect.x0 zone) b0)
    as [[found b1] |] eqn:E; cbn [bind]; [| discriminate].
  destruct found.
  - intros H. injection H as <-. apply (scanRow_true_shape _ _ _ _ _ E).
  - apply IH.
Qed.

(** Whatever [findBall] returns, the game it leaves differs from the one it
    was given in the ball rectangle and the two readings at most. *)
Lemma findBall_fields (now : Z) (found : bool) (g' : Game.t) :
  Game.findBall g frame zone now = Some (found, g') ->
  g' = Game.set_lastBallMove
         (Game.set_lastBall (Game.set_ball g (Game.ball g')) (Game.lastBall g'))
         (Game.lastBallMove g').
Proof.
  unfold Game.findBall.
  destruct (Game.reacquire g frame (Game.ball g)) as [[f1 b1] |]; cbn [bind];
    [| discriminate].
  destruct f1.
  - intros H. injection H as _ <-.
    destruct (Rect.neqb (Game.ball g) b1); destruct g; reflexivity.
  - destruct (Game.scanRows g frame zone _ _ _) as [[f2 b2] |]; cbn [bind];
      [| discriminate].
    destruct f2; intros H; injection H as _ <-; destruct g; reflexivity.
Qed.

Lemma findBall_true_facts (now : Z) (g' : Game.t) :
  Game.findBall g frame zone now = Some (true, g') ->
  ballShape frame (Game.ball g')
  /\ Game.lastBall g' = now
  /\ (Game.lastBallMove g' = now
      \/ (Game.ball g' = Game.ball g /\ Game.lastBallMove g' = Game.lastBallMove g))
  /\ g' = Game.set_lastBallMove
            (Game.set_lastBall (Game.set_ball g (Game.ball g')) now)
            (Game.lastBallMove g').
Proof.
  unfold Game.findBall.
  destruct (Game.reacquire g frame (Game.ball g)) as [[f1 b1] |] eqn:E1; cbn [bind];
    [| discriminate].
  destruct f1.
  - intros H. injection H as H.
    pose proof (reacquire_true_shape _ _ E1) as Hs.
    destruct (Rect.neqb (Game.ball g) b1) eqn:En; subst g'.
    + split; [exact Hs |]. split; [reflexivity |].
      split; [left; reflexivity | destruct g; reflexivity].
    + apply rect_neqb_false in En. subst b1.
      split; [exact Hs |]. split; [reflexivity |].
      split; [right; split; reflexivity | destruct g; reflexivity].
  - destruct (Game.scanRows g frame zone _ _ _) as [[f2 b2] |] eqn:E2; cbn [bind];
      [| discriminate].
    destruct f2; [| discriminate].
    intros H. injection H as H. subst g'.
    pose proof (scanRows_true_shape _ _ _ _ E2) as Hs.
    split; [exact Hs |]. split; [reflexivity |].
    split; [left; reflexivity | destruct g; reflexivity].
Qed.

(** X11: when [findBall] returns true, the ball rectangle it has stored
    passed the shape test on this raster, the last-seen reading is the
    current one, the last-moved reading is the current one unless the
    rectangle is the one stored before and the reading is kept, and nothing
    else of the game has changed. *)
Theorem findBall_true_effect (now : Z) (g' : Game.t) :
  Game.findBall g frame zone now = Some (true, g') ->
  ballShape frame (Game.ball g')
  /\ Game.lastBall g' = now
  /\ (Game.lastBallMove g' = now
      \/ (Game.ball g' = Game.ball g /\ Game.lastBallMove g' = Game.lastBallMove g))
  /\ g' = Game.set_lastBallMove
            (Game.set_lastBall (Game.set_ball g (Game.ball g')) now)
            (Game.lastBallMove g').
Proof. apply findBall_true_facts. Qed.

Lemma findBall_sees_no_ball (now : Z) :
  (forall x y, frame x y <> ballColor) ->
  scanFits g zone ->
  Game.findBall g frame zone now = Some (false, g).
Proof.
  intros Hno (Zx0 & Zy0 & Zx1 & Zy1).
  assert (Hchk : forall x y b, Game.check g frame x y b = Some (false, b)).
  { intros x y b. apply check_off_colour. apply Hno. }
  assert (Hrow : forall fuel y x b,
             Int.in_range x -> Z.max 0 (Rect.x1 zone - x) < Z.of_nat fuel ->
             Game.scanRow g frame zone fuel y x b = Some (false, b)).
  { induction fuel as [| fuel IH]; intros y x b Hx Hfuel; [lia |].
    cbn [Game.scanRow].
    destruct (Z.ltb_spec x (Rect.x1 zone)) as [Hlt | Hge]; [| reflexivity].
    rewrite Hchk.
    replace (if negb (Rect.contains b x y) then Some (false, b) else Some (false, b))
      with (Some (false, b)) by (destruct (negb (Rect.contains b x y)); reflexivity).
    cbn [bind].
    assert (Hnext : Int.add x (Z.max 1 (Int.div (Rect.width (Game.ball g)) 2))
                    = x + Z.max 1 (Int.div (Rect.width (Game.ball g)) 2)).
    { int_small. reflexivity. }
    apply IH; rewrite Hnext; [int_range | lia]. }
  assert (Hrows : forall fuel y b,
             Int.in_range y -> Z.max 0 (Rect.y1 zone - y) < Z.of_nat fuel ->
             Game.scanRows g frame zone fuel y b = Some (false, b)).
  { induction fuel as [| fuel IH]; intros y b Hy Hfuel; [lia |].
    cbn [Game.scanRows].
    destruct (Z.ltb_spec y (Rect.y1 zone)) as [Hlt | Hge]; [| reflexivity].
    rewrite Hrow by (try exact Zx0; unfold Game.rowFuel; lia).
    cbn [bind].
    assert (Hnext : Int.add y (Z.max 1 (Int.div (Rect.height (Game.ball g)) 2))
                    = y + Z.max 1 (Int.div (Rect.height (Game.ball g)) 2)).
    { int_small. reflexivity. }
    apply IH; rewrite Hnext; [int_range | lia]. }
  unfold Game.findBall, Game.reacquire, Game.orElse.
  rewrite Hchk. cbn [bind]. rewrite Hchk. cbn [bind].
  rewrite Hchk. cbn [bind]. rewrite Hchk. cbn [bind].
  rewrite Hrows by (try exact Zy0; unfold Game.rowsFuel; lia).
  reflexivity.
Qed.

(** X12: on a raster that shows the ball colour nowhere, with a zone that
    keeps the grid scan inside the [int] range, [findBall] returns false and
    leaves the game as it is. *)
Theorem findBall_no_ball_colour (now : Z) :
  (forall x y, frame x y <> ballColor) ->
  scanFits g zone ->
  Game.findBall g frame zone now = Some (false, g).
Proof. apply findBall_sees_no_ball. Qed.

End FindBallFacts.

Lemma findBall_true_effect_witness :
  ballShape (tokenFrame 4) (Game.ball activeGame)
  /\ Game.lastBall activeGame = 100
  /\ (Game.lastBallMove activeGame = 100
      \/ (Game.ball activeGame = Game.ball activeGame
          /\ Game.lastBallMove activeGame = Game.lastBallMove activeGame))
  /\ activeGame
     = Game.set_lastBallMove
         (Game.set_lastBall (Game.set_ball activeGame (Game.ball activeGame)) 100)
         (Game.lastBallMove activeGame).
Proof.
  apply (findBall_true_effect activeGame (tokenFrame 4) (Game.field activeGame)
           100 activeGame).
  vm_compute. reflexivity.
Defined.

Lemma emptyFrame_no_ball_colour : forall x y, emptyFrame x y <> ballColor.
Proof. intros x y. vm_compute. discriminate. Qed.

Lemma findBall_no_ball_colour_witness :
  Game.findBall startedGame emptyFrame (wholeScreen startedGame) 101
  = Some (false, startedGame).
Proof.
  apply (findBall_no_ball_colour startedGame emptyFrame (wholeScreen startedGame) 101
           emptyFrame_no_ball_colour).
  unfold scanFits. vm_compute. repeat split; discriminate.
Defined.

(** ** Further properties of the field calibration *)

Lemma findBall_keeps (g g' : Game.t) (frame : GameFrame) (zone : Rect.t)
  (now : Z) (found : bool) :
  Game.findBall g frame zone now = Some (found, g') ->
  Game.width g' = Game.width g /\ Game.height g' = Game.height g
  /\ Game.screen g' = Game.screen g /\ Game.field g' = Game.field g
  /\ Game.frameCount g' = Game.frameCount g /\ Game.lastFire g' = Game.lastFire g
  /\ Game.deadzoneFrames g' = Game.deadzoneFrames g
  /\ Game.ignoredCount g' = Game.ignoredCount g
  /\ Game.hasFired g' = Game.hasFired g.
Proof.
  intros H. apply findBall_fields in H. rewrite H. destruct g. cbn. repeat split.
Qed.

(** X13: when the search of the whole screen finds the ball, [expandField]
    returns true, writes nothing and changes only the field: the new field
    covers the ball box; it is the ball box when no field existed, and
    otherwise it also covers the field that existed. *)
Theorem expandField_found (g g1 : Game.t) (frame : GameFrame) (now : Z) :
  Game.findBall g frame (wholeScreen g) now = Some (true, g1) ->
  exists f,
    Game.expandField g frame now = Some (true, Game.set_field g1 f, [])
    /\ within (Game.ball g1) f
    /\ (Rect.x1 (Game.field g) = 0 -> f = Game.ball g1)
    /\ (Rect.x1 (Game.field g) <> 0 -> within (Game.field g) f).
Proof.
  intros H. pose proof (findBall_keeps _ _ _ _ _ _ H) as (_ & _ & _ & Kf & _).
  unfold Game.expandField. unfold wholeScreen in H. rewrite H. cbn [bind negb].
  rewrite Kf. destruct (Z.eqb_spec (Rect.x1 (Game.field g)) 0) as [E | E].
  - exists (Game.ball g1).
    split; [reflexivity |]. split; [unfold within; lia |].
    split; [reflexivity | intros Hne; contradiction].
  - exists (Rect.add (Game.field g) (Game.ball g1)).
    split; [reflexivity |].
    split; [unfold within, Rect.add; cbn [Rect.x0 Rect.y0 Rect.x1 Rect.y1]; lia |].
    split; [intros E0; contradiction |].
    intros _. unfold within, Rect.add. cbn [Rect.x0 Rect.y0 Rect.x1 Rect.y1]. lia.
Qed.

Lemma expandField_found_witness :
  exists f,
    Game.expandField activeGame (tokenFrame 4) 100
    = Some (true, Game.set_field activeGame f, [])
    /\ within (Game.ball activeGame) f
    /\ (Rect.x1 (Game.field activeGame) = 0 -> f = Game.ball activeGame)
    /\ (Rect.x1 (Game.field activeGame) <> 0 -> within (Game.field activeGame) f).
Proof.
  apply (expandField_found activeGame activeGame (tokenFrame 4) 100).
  vm_compute. reflexivity.
Defined.

Lemma addFieldSafetyMargin_eq (g : Game.t) :
  Game.width g < Int.max_signed -> Game.height g < Int.max_signed ->
  onScreen (Game.width g) (Game.height g) (Game.field g) ->
  Game.addFieldSafetyMargin g
  = Game.set_field g
      (grown (Game.width g) (Game.height g)
             (Z.max 0 (Rect.width (Game.ball g))) (Game.field g))
  /\ (Rect.width (Game.ball g) <= 0 -> Game.addFieldSafetyMargin g = g).
Proof.
  intros HW HH Hf.
  assert (E : Game.addFieldSafetyMargin g
              = Game.set_field g
                  (grown (Game.width g) (Game.height g)
                         (Z.max 0 (Rect.width (Game.ball g))) (Game.field g))).
  { unfold Game.addFieldSafetyMargin. f_equal.
    change (Nat.iter ?n (fun f => snd (expand (Game.width g) (Game.height g) f)) ?r)
      with (expansions (Game.width g) (Game.height g) n r).
    rewrite expansions_grown by assumption.
    replace (Z.of_nat (Z.to_nat (Rect.width (Game.ball g))))
      with (Z.max 0 (Rect.width (Game.ball g))) by lia.
    reflexivity. }
  split; [exact E |].
  intros Hle. rewrite E.
  replace (Z.max 0 (Rect.width (Game.ball g))) with 0 by lia.
  assert (Eg : grown (Game.width g) (Game.height g) 0 (Game.field g) = Game.field g).
  { unfold grown, onScreen in *.
    apply rect_eq; cbn [Rect.x0 Rect.y0 Rect.x1 Rect.y1]; lia. }
  rewrite Eg. destruct g. reflexivity.
Qed.

(** X14: on a field that lies on the screen, [addFieldSafetyMargin] moves
    every side of the field outwards by the width of the ball box, stopped at
    the border of the screen, and changes nothing else; with a ball box of
    width 0 or less it changes nothing. *)
Theorem addFieldSafetyMargin_grown (g : Game.t) :
  Game.width g < Int.max_signed -> Game.height g < Int.max_signed ->
  onScreen (Game.width g) (Game.height g) (Game.field g) ->
  Game.addFieldSafetyMargin g
  = Game.set_field g
      (grown (Game.width g) (Game.height g)
             (Z.max 0 (Rect.width (Game.ball g))) (Game.field g))
  /\ (Rect.width (Game.ball g) <= 0 -> Game.addFieldSafetyMargin g = g).
Proof. apply addFieldSafetyMargin_eq. Qed.

Lemma addFieldSafetyMargin_grown_witness :
  Game.addFieldSafetyMargin activeGame
  = Game.set_field activeGame
      (grown (Game.width activeGame) (Game.height activeGame)
             (Z.max 0 (Rect.width (Game.ball activeGame))) (Game.field activeGame))
  /\ (Rect.width (Game.ball activeGame) <= 0 ->
      Game.addFieldSafetyMargin activeGame = activeGame).
Proof.
  apply (addFieldSafetyMargin_grown activeGame);
    unfold onScreen; vm_compute; repeat split; discriminate.
Defined.

Lemma haveField_true (g : Game.t) :
  Game.haveField g = true
  <-> (let unit := Z.max 4 (Rect.width (Game.ball g)) in
       Int.mul unit 10 < Rect.width (Game.field g)
       /\ Int.mul unit 10 < Rect.height (Game.field g)
       /\ Rect.width (Game.field g) < Int.add (Rect.height (Game.field g)) (Int.div unit 4)
       /\ Int.sub (Rect.height (Game.field g)) (Int.div unit 4)
          < Rect.width (Game.field g)).
Proof.
  unfold Game.haveField. cbv zeta.
  rewrite !andb_true_iff, !Z.ltb_lt. tauto.
Qed.

(** X15: when the margin fits on the screen without being stopped at the
    border (and the screen is at most 100000000 pixels wide and high), a
    field that satisfies [haveField] still satisfies it after
    [addFieldSafetyMargin]. *)
Theorem addFieldSafetyMargin_keeps_field (g : Game.t) :
  Game.width g <= 100000000 -> Game.height g <= 100000000 ->
  onScreen (Game.width g) (Game.height g) (Game.field g) ->
  Rect.width (Game.ball g) <= Rect.x0 (Game.field g) ->
  Rect.width (Game.ball g) <= Rect.y0 (Game.field g) ->
  Rect.x1 (Game.field g) + Rect.width (Game.ball g) <= Game.width g ->
  Rect.y1 (Game.field g) + Rect.width (Game.ball g) <= Game.height g ->
  Game.haveField g = true ->
  Game.haveField (Game.addFieldSafetyMargin g) = true.
Proof.
  intros HW HH Hon F0 F1 F2 F3 Hhave.
  destruct (addFieldSafetyMargin_eq g) as [E _];
    [unfold Int.max_signed; lia | unfold Int.max_signed; lia | exact Hon |].
  rewrite E. clear E.
  apply haveField_true in Hhave. apply haveField_true.
  destruct g as [W H scr ball [a b c d] fc lf lb lbm dz ign hf].
  unfold Game.set_field, grown, onScreen in *.
  cbn [Game.width Game.height Game.ball Game.field Rect.x0 Rect.y0 Rect.x1 Rect.y1] in *.
  cbv zeta in *.
  set (n := Rect.width ball) in *. clearbody n.
  set (u := Z.max 4 n) in *.
  assert (Hq : 0 <= Int.div u 4 <= u).
  { unfold Int.div. rewrite Z.quot_div_nonneg by lia.
    split; [apply Z.div_pos | apply Z.div_le_upper_bound]; lia. }
  set (q := Int.div u 4) in *. clearbody q.
  unfold Rect.width, Rect.height in *.
  cbn [Rect.x0 Rect.y0 Rect.x1 Rect.y1] in *.
  replace (Z.max 0 (a - Z.max 0 n)) with (a - Z.max 0 n) by lia.
  replace (Z.max 0 (b - Z.max 0 n)) with (b - Z.max 0 n) by lia.
  replace (Z.min W (c + Z.max 0 n)) with (c + Z.max 0 n) by lia.
  replace (Z.min H (d + Z.max 0 n)) with (d + Z.max 0 n) by lia.
  set (m := Z.max 0 n) in *.
  assert (Hu : Int.mul u 10 = u * 10).
  { unfold Int.mul. apply int_wrap_small. subst u. int_range. }
  rewrite Hu in *.
  assert (E1 : Int.sub c a = c - a) by (int_small; reflexivity).
  assert (E2 : Int.sub d b = d - b) by (int_small; reflexivity).
  assert (E3 : Int.sub (c + m) (a - m) = c - a + 2 * m)
    by (int_small; subst m; lia).
  assert (E4 : Int.sub (d + m) (b - m) = d - b + 2 * m)
    by (int_small; subst m; lia).
  rewrite E1, E2 in Hhave. rewrite E3, E4.
  assert (E5 : Int.add (d - b) q = d - b + q) by (int_small; subst u; lia).
  assert (E6 : Int.sub (d - b) q = d - b - q) by (int_small; subst u; lia).
  assert (E7 : Int.add (d - b + 2 * m) q = d - b + 2 * m + q)
    by (int_small; subst u m; lia).
  assert (E8 : Int.sub (d - b + 2 * m) q = d - b + 2 * m - q)
    by (int_small; subst u m; lia).
  rewrite E5, E6 in Hhave. rewrite E7, E8. subst m. lia.
Qed.

Lemma addFieldSafetyMargin_keeps_field_witness :
  Game.haveField (Game.addFieldSafetyMargin fieldGame) = true.
Proof.
  apply (addFieldSafetyMargin_keeps_field fieldGame);
    unfold onScreen; vm_compute; repeat split; discriminate.
Defined.

(** ** Further properties of step *)

Ltac step_cases :=
  repeat first
    [ progress cbn [bind negb]
    | progress cbv zeta
    | match goal with
      | |- context [if ?c then _ else _] => destruct c eqn:?
      end ].

Ltac game_fields :=
  cbn [Game.width Game.height Game.screen Game.ball Game.field Game.frameCount
       Game.lastFire Game.lastBall Game.lastBallMove Game.deadzoneFrames
       Game.ignoredCount Game.hasFired
       Game.set_ball Game.set_field Game.set_frameCount Game.set_lastFire
       Game.set_lastBall Game.set_lastBallMove Game.set_ignoredCount
       Game.set_hasFired Game.addFieldSafetyMargin].

(** X16: every [step] that returns adds one to the frame counter, as an
    [int], and leaves the screen size, the screen rectangle and the dead
    zone as they are. *)
Theorem step_counts_frame
  (g g' : Game.t) (frame : GameFrame) (tFind tStep : Z)
  (keepPlaying : bool) (ev : list Event) :
  Game.step g frame tFind tStep = Some (keepPlaying, g', ev) ->
  Game.frameCount g' = Int.add (Game.frameCount g) 1
  /\ Game.width g' = Game.width g /\ Game.height g' = Game.height g
  /\ Game.screen g' = Game.screen g
  /\ Game.deadzoneFrames g' = Game.deadzoneFrames g.
Proof.
  unfold Game.step, Game.expandField.
  destruct (Game.haveField g) eqn:Hh; cbv zeta; cbn [negb].
  - destruct (Game.findBall g frame (Game.field g) tFind) as [[found g1] |] eqn:E;
      cbn [bind]; [| discriminate].
    apply findBall_keeps in E as (K0 & K1 & K2 & K3 & K4 & K5 & K6 & K7 & K8).
    destruct found; unfold Game.fire; step_cases.
    all: intros H; injection H as <- <- <-.
    all: game_fields; rewrite ?K0, ?K1, ?K2, ?K4, ?K6; repeat split.
  - destruct (Game.findBall g frame _ tFind) as [[found g1] |] eqn:E;
      cbn [bind]; [| discriminate].
    apply findBall_keeps in E as (K0 & K1 & K2 & K3 & K4 & K5 & K6 & K7 & K8).
    destruct found; step_cases.
    all: intros H; injection H as <- <- <-.
    all: game_fields; rewrite ?K0, ?K1, ?K2, ?K4, ?K6; repeat split.
Qed.

Lemma step_counts_frame_witness :
  Game.frameCount (Game.mk 64 64 (Rect.mk 0 0 64 64) (Rect.mk 20 20 25 25)
                           (Rect.mk 0 0 60 60) 11 10 100 100 1 0 true)
  = Int.add (Game.frameCount activeGame) 1.
Proof.
  apply (step_counts_frame activeGame _ (tokenFrame 4) 100 100 true
           [CtlFire; LogFire 10 0]).
  vm_compute. reflexivity.
Defined.

(** X17: in the ACTIVE state [step] never changes the field, and writes
    nothing but the fire signal with its log line and the line that the game
    stopped. *)
Theorem step_active_keeps_field
  (g g' : Game.t) (frame : GameFrame) (tFind tStep : Z)
  (keepPlaying : bool) (ev : list Event) :
  Game.haveField g = true ->
  Game.step g frame tFind tStep = Some (keepPlaying, g', ev) ->
  Game.field g' = Game.field g
  /\ (forall e, In e ev ->
                e = CtlFire
                \/ (exists ign, e = LogFire (Game.frameCount g) ign)
                \/ e = LogGameStopped (Game.frameCount g)).
Proof.
  intros Hhave. unfold Game.step. rewrite Hhave. cbv zeta. cbn [negb].
  destruct (Game.findBall g frame (Game.field g) tFind) as [[found g1] |] eqn:E;
    cbn [bind]; [| discriminate].
  apply findBall_keeps in E as (K0 & K1 & K2 & K3 & K4 & K5 & K6 & K7 & K8).
  destruct found; unfold Game.fire; step_cases.
  all: intros H; injection H as <- <- <-.
  all: game_fields; rewrite ?K3, ?K4.
  all: split; [reflexivity |].
  all: intros e He; cbn [In app] in He.
  all: repeat match goal with
         | H : _ \/ _ |- _ => destruct H as [H | H]
         end; try contradiction; subst e; eauto.
Qed.

Lemma step_active_keeps_field_witness :
  Game.field (Game.mk 64 64 (Rect.mk 0 0 64 64) (Rect.mk 20 20 25 25)
                      (Rect.mk 0 0 60 60) 11 10 100 100 1 0 true)
  = Game.field activeGame.
Proof.
  apply (step_active_keeps_field activeGame _ (tokenFrame 4) 100 100 true
           [CtlFire; LogFire 10 0]).
  - vm_compute. reflexivity.
  - vm_compute. reflexivity.
Defined.

(** X18: in BOOTSTRAP [step] does not run the fire policy: the last-fire
    frame, the ignored count and the fired flag stay as they are and no fire
    line is logged, even when the step sends the key press that starts the
    game. *)
Theorem step_bootstrap_keeps_fire_state
  (g g' : Game.t) (frame : GameFrame) (tFind tStep : Z)
  (keepPlaying : bool) (ev : list Event) :
  Game.haveField g = false ->
  Game.step g frame tFind tStep = Some (keepPlaying, g', ev) ->
  Game.lastFire g' = Game.lastFire g
  /\ Game.ignoredCount g' = Game.ignoredCount g
  /\ Game.hasFired g' = Game.hasFired g
  /\ (forall fc ign, ~ In (LogFire fc ign) ev).
Proof.
  intros Hhave. unfold Game.step, Game.expandField. rewrite Hhave.
  cbv zeta. cbn [negb].
  destruct (Game.findBall g frame _ tFind) as [[found g1] |] eqn:E;
    cbn [bind]; [| discriminate].
  apply findBall_keeps in E as (K0 & K1 & K2 & K3 & K4 & K5 & K6 & K7 & K8).
  destruct found; step_cases.
  all: intros H; injection H as <- <- <-.
  all: game_fields; rewrite ?K5, ?K7, ?K8.
  all: split; [reflexivity |]; split; [reflexivity |]; split; [reflexivity |].
  all: intros fc ign He; cbn [In app] in He.
  all: repeat match goal with
         | H : _ \/ _ |- _ => destruct H as [H | H]
         end; try contradiction; discriminate.
Qed.

Lemma step_bootstrap_keeps_fire_state_witness :
  Game.lastFire (Game.mk 24 24 (Rect.mk 0 0 24 24) (Rect.mk 4 4 9 9)
                         (Rect.mk 3 3 10 10) 2 0 100 100 1 0 false)
  = Game.lastFire startedGame.
Proof.
  apply (step_bootstrap_keeps_fire_state startedGame _ emptyFrame 101 101 true
           [CtlFocus 6 6; CtlFire; LogGameStarted 1]).
  - vm_compute. reflexivity.
  - vm_compute. reflexivity.
Defined.

(** X19: [step] asks for the image dump only in BOOTSTRAP with no field
    captured, under the name no-ball-proof.png, and then returns false; and
    when it returns false in BOOTSTRAP, that request and its error line are
    all it writes. *)
Theorem step_dump_only_when_fatal
  (g g' : Game.t) (frame : GameFrame) (tFind tStep : Z)
  (keepPlaying : bool) (ev : list Event) :
  Game.step g frame tFind tStep = Some (keepPlaying, g', ev) ->
  (forall path, In (SavePng path) ev ->
     path = "no-ball-proof.png"%string /\ keepPlaying = false
     /\ Game.haveField g = false /\ Rect.x1 (Game.field g) = 0)
  /\ (Game.haveField g = false -> keepPlaying = false ->
      ev = [LogNoBall; SavePng "no-ball-proof.png"]).
Proof.
  unfold Game.step, Game.expandField.
  destruct (Game.haveField g) eqn:Hhave; cbv zeta; cbn [negb].
  - destruct (Game.findBall g frame (Game.field g) tFind) as [[found g1] |] eqn:E;
      cbn [bind]; [| discriminate].
    destruct found; unfold Game.fire; step_cases.
    all: intros H; injection H as <- <- <-.
    all: split; [| intros; discriminate].
    all: intros path He; cbn [In app] in He.
    all: repeat match goal with
           | H : _ \/ _ |- _ => destruct H as [H | H]
           end; try contradiction; discriminate.
  - destruct (Game.findBall g frame _ tFind) as [[found g1] |] eqn:E;
      cbn [bind]; [| discriminate].
    apply findBall_keeps in E as (K0 & K1 & K2 & K3 & K4 & K5 & K6 & K7 & K8).
    rewrite K3.
    destruct found; cbn [negb];
      destruct (Z.eqb_spec (Rect.x1 (Game.field g)) 0) as [Ex | Ex]; step_cases.
    all: intros H; injection H as <- <- <-.
    all: split; [| intros _ Hk; try discriminate Hk; try reflexivity].
    all: intros path He; cbn [In app] in He.
    all: repeat match goal with
           | H : _ \/ _ |- _ => destruct H as [H | H]
           end; try contradiction; try discriminate.
    injection He as <-. repeat split. exact Ex.
Qed.

Lemma step_dump_only_when_fatal_witness :
  "no-ball-proof.png"%string = "no-ball-proof.png"%string /\ false = false
  /\ Game.haveField (Game.create 24 24 1 100 100) = false
  /\ Rect.x1 (Game.field (Game.create 24 24 1 100 100)) = 0.
Proof.
  destruct (step_dump_only_when_fatal (Game.create 24 24 1 100 100)
              (nextFrame (Game.create 24 24 1 100 100)) emptyFrame 101 101 false
              [LogNoBall; SavePng "no-ball-proof.png"]) as [H _].
  - vm_compute. reflexivity.
  - apply H. right. left. reflexivity.
Defined.

(** X20: in the ACTIVE state a [step] that sends the fire signal found the
    fired flag clear and the dead zone over, logs the frame and the ignored
    count, and leaves the flag set, the last-fire frame at the current frame
    and the ignored count at 0; a [step] that does not send it leaves the
    last-fire frame as it is. *)
Theorem step_active_fire
  (g g' : Game.t) (frame : GameFrame) (tFind tStep : Z)
  (keepPlaying : bool) (ev : list Event) :
  Game.haveField g = true ->
  Game.step g frame tFind tStep = Some (keepPlaying, g', ev) ->
  (In CtlFire ev ->
   Game.hasFired g = false
   /\ Game.deadzoneFrames g <= Int.sub (Game.frameCount g) (Game.lastFire g)
   /\ In (LogFire (Game.frameCount g) (Game.ignoredCount g)) ev
   /\ Game.hasFired g' = true
   /\ Game.lastFire g' = Game.frameCount g
   /\ Game.ignoredCount g' = 0)
  /\ (~ In CtlFire ev -> Game.lastFire g' = Game.lastFire g).
Proof.
  intros Hhave. unfold Game.step. rewrite Hhave. cbv zeta. cbn [negb].
  destruct (Game.findBall g frame (Game.field g) tFind) as [[found g1] |] eqn:E;
    cbn [bind]; [| discriminate].
  apply findBall_keeps in E as (K0 & K1 & K2 & K3 & K4 & K5 & K6 & K7 & K8).
  destruct found; unfold Game.fire; step_cases.
  all: intros H; injection H as <- <- <-.
  all: game_fields; rewrite ?K4, ?K5, ?K6, ?K7.
  all: split; [| intros Hno; try reflexivity;
                 exfalso; apply Hno; cbn [In app]; auto].
  all: intros He; cbn [In app] in He.
  all: repeat match goal with
         | H : _ \/ _ |- _ => destruct H as [H | H]
         end; try contradiction; try discriminate.
  all: rewrite <- K8.
  all: repeat match goal with
         | H : negb _ = true |- _ => apply negb_true_iff in H
         | H : (_ <=? _) = true |- _ => apply Z.leb_le in H
         end.
  all: rewrite K4, K5, K6 in *.
  all: repeat split; auto; cbn [In app]; auto.
Qed.

Lemma step_active_fire_witness :
  Game.hasFired activeGame = false
  /\ Game.deadzoneFrames activeGame
     <= Int.sub (Game.frameCount activeGame) (Game.lastFire activeGame)
  /\ In (LogFire (Game.frameCount activeGame) (Game.ignoredCount activeGame))
        [CtlFire; LogFire 10 0]
  /\ Game.hasFired (Game.mk 64 64 (Rect.mk 0 0 64 64) (Rect.mk 20 20 25 25)
                            (Rect.mk 0 0 60 60) 11 10 100 100 1 0 true) = true
  /\ Game.lastFire (Game.mk 64 64 (Rect.mk 0 0 64 64) (Rect.mk 20 20 25 25)
                            (Rect.mk 0 0 60 60) 11 10 100 100 1 0 true)
     = Game.frameCount activeGame
  /\ Game.ignoredCount (Game.mk 64 64 (Rect.mk 0 0 64 64) (Rect.mk 20 20 25 25)
                                (Rect.mk 0 0 60 60) 11 10 100 100 1 0 true) = 0.
Proof.
  destruct (step_active_fire activeGame
              (Game.mk 64 64 (Rect.mk 0 0 64 64) (Rect.mk 20 20 25 25)
                       (Rect.mk 0 0 60 60) 11 10 100 100 1 0 true)
              (tokenFrame 4) 100 100 true [CtlFire; LogFire 10 0]) as [H _].
  - vm_compute. reflexivity.
  - vm_compute. reflexivity.
  - apply H. left. reflexivity.
Defined.

(** X21: in the ACTIVE state a [step] that finds the ball returns true iff
    its reading of the clock, minus the reading when the ball last moved, is
    less than 2, and logs that the game stopped exactly when it returns
    false; a ball found at another rectangle than before has just moved. *)
Theorem step_active_found_timeout
  (g g1 : Game.t) (frame : GameFrame) (tFind tStep : Z) :
  Game.haveField g = true ->
  Game.findBall g frame (Game.field g) tFind = Some (true, g1) ->
  (Game.ball g1 <> Game.ball g -> Game.lastBallMove g1 = tFind)
  /\ exists g' ev,
      Game.step g frame tFind tStep
      = Some (Clock.sub tStep (Game.lastBallMove g1) <? 2, g', ev)
      /\ (In (LogGameStopped (Game.frameCount g)) ev
          <-> 2 <= Clock.sub tStep (Game.lastBallMove g1)).
Proof.
  intros Hhave Hfind. split.
  - intros Hne.
    destruct (findBall_true_facts _ _ _ _ _ Hfind) as (_ & _ & [E | [E _]] & _);
      [exact E | contradiction].
  - unfold Game.step. rewrite Hhave. cbv zeta. cbn [negb]. rewrite Hfind.
    pose proof (findBall_keeps _ _ _ _ _ _ Hfind)
      as (K0 & K1 & K2 & K3 & K4 & K5 & K6 & K7 & K8).
    cbn [bind]. unfold Game.fire. step_cases.
    all: game_fields; rewrite ?K4 in *.
    all: repeat match goal with
           | H : (Clock.sub _ _ <? 2) = _ |- _ => revert H
           end; game_fields; intros Hk; rewrite ?Hk.
    all: do 2 eexists; (split; [reflexivity |]).
    all: first [apply Z.ltb_lt in Hk | apply Z.ltb_ge in Hk].
    all: cbn [In app]; split; try lia; intros Hin.
    all: repeat match goal with
           | H : _ \/ _ |- _ => destruct H as [H | H]
           end; try contradiction; try discriminate; auto.
Qed.

Lemma step_active_found_timeout_witness :
  exists g' ev,
    Game.step activeGame (tokenFrame 4) 100 103
    = Some (Clock.sub 103 (Game.lastBallMove activeGame) <? 2, g', ev)
    /\ (In (LogGameStopped (Game.frameCount activeGame)) ev
        <-> 2 <= Clock.sub 103 (Game.lastBallMove activeGame)).
Proof.
  apply (step_active_found_timeout activeGame activeGame (tokenFrame 4) 100 103).
  - vm_compute. reflexivity.
  - vm_compute. reflexivity.
Defined.

(** ** The loop of main *)

Lemma haveField_create (width height deadzoneFrames t0 t1 : Z) :
  Game.haveField (Game.create width height deadzoneFrames t0 t1) = false.
Proof. vm_compute. reflexivity. Qed.

(** X22: a game just constructed, on a screen narrower and lower than the
    largest [int], whose first raster shows the ball colour nowhere, ends in
    its first step: the loop of [main] takes that one step, which writes the
    error line and asks for the image dump, whatever rasters would follow. *)
Theorem fresh_game_without_ball
  (width height deadzoneFrames t0 t1 : Z) (frame : GameFrame) (tFind tStep : Z)
  (rest : list (GameFrame * Z * Z)) :
  width < Int.max_signed -> height < Int.max_signed ->
  (forall x y, frame x y <> ballColor) ->
  play ((frame, tFind, tStep) :: rest)
       (Game.create width height deadzoneFrames t0 t1)
  = Some (false, nextFrame (Game.create width height deadzoneFrames t0 t1),
          [LogNoBall; SavePng "no-ball-proof.png"]).
Proof.
  intros HW HH Hno. cbn [play].
  assert (E : Game.findBall (Game.create width height deadzoneFrames t0 t1) frame
                (wholeScreen (Game.create width height deadzoneFrames t0 t1)) tFind
              = Some (false, Game.create width height deadzoneFrames t0 t1)).
  { apply findBall_sees_no_ball; [exact Hno |].
    unfold scanFits, wholeScreen.
    cbn [Game.create Game.width Game.height Game.ball
         Rect.x0 Rect.y0 Rect.x1 Rect.y1].
    replace (Rect.width (Rect.mk 0 0 0 0)) with 0 by reflexivity.
    replace (Rect.height (Rect.mk 0 0 0 0)) with 0 by reflexivity.
    replace (Z.max 1 (Int.div 0 2)) with 1 by reflexivity.
    repeat split; int_range. }
  unfold Game.step, Game.expandField. rewrite haveField_create.
  cbv zeta. cbn [negb]. unfold wholeScreen in E. rewrite E. reflexivity.
Qed.

Lemma fresh_game_without_ball_witness :
  play [(emptyFrame, 101, 101); (tokenFrame 4, 102, 102)]
       (Game.create 64 64 1 100 100)
  = Some (false, nextFrame (Game.create 64 64 1 100 100),
          [LogNoBall; SavePng "no-ball-proof.png"]).
Proof.
  apply (fresh_game_without_ball 64 64 1 100 100 emptyFrame 101 101
           [(tokenFrame 4, 102, 102)]).
  - unfold Int.max_signed. lia.
  - unfold Int.max_signed. lia.
  - exact emptyFrame_no_ball_colour.
Defined.

(** ** Rect: the comparison operators *)

(** X23: [operator!=] on rectangles is the negation of [operator==], and
    [operator==] holds exactly of rectangles with the same four sides. *)
Theorem rect_operators_agree :
  (forall r1 r2, Rect.neqb r1 r2 = negb (Rect.eqb r1 r2))
  /\ (forall r1 r2, Rect.eqb r1 r2 = true <-> r1 = r2).
Proof.
  split; [exact rect_neqb_negb_eqb | exact rect_eqb_eq].
Qed.

(** ** XImageFrame::savePng: the pixel buffer *)

Lemma alpha_mask_testbit (n : Z) :
  0 <= n -> Z.testbit 4278190080 n = (24 <=? n) && (n <? 32).
Proof.
  intros Hn. change 4278190080 with (Z.shiftl 255 24).
  rewrite Z.shiftl_spec by lia.
  destruct (Z.leb_spec 24 n).
  - rewrite mask_testbit by lia. cbn [andb].
    destruct (Z.ltb_spec (n - 24) 8), (Z.ltb_spec n 32); try reflexivity; lia.
  - apply Z.testbit_neg_r. lia.
Qed.

Lemma word_mask_testbit (n : Z) : 0 <= n -> Z.testbit 4294967295 n = (n <? 32).
Proof.
  intros Hn. change 4294967295 with (Z.ones 32).
  destruct (Z.ltb_spec n 32).
  - apply Z.ones_spec_low. lia.
  - apply Z.ones_spec_high. lia.
Qed.

Lemma pngPixel_testbit (raw n : Z) :
  0 <= n ->
  Z.testbit (pngPixel raw) n
  = (Z.testbit raw n || (24 <=? n) && (n <? 32)) && (n <? 32).
Proof.
  intros Hn. unfold pngPixel.
  rewrite Z.land_spec, Z.lor_spec, alpha_mask_testbit, word_mask_testbit by lia.
  reflexivity.
Qed.

(** X24: every value that [savePng] writes to the pixel buffer fits 32 bits,
    has the fourth channel at 255, and has the red, green and blue channels
    of the pixel it was read from. *)
Theorem pngPixel_channels (raw : Z) :
  0 <= pngPixel raw < 4294967296
  /\ Pixel.a (pngPixel raw) = 255
  /\ Pixel.r (pngPixel raw) = Pixel.r raw
  /\ Pixel.g (pngPixel raw) = Pixel.g raw
  /\ Pixel.b (pngPixel raw) = Pixel.b raw.
Proof.
  split.
  { unfold pngPixel. change 4294967295 with (Z.ones 32).
    rewrite Z.land_ones by lia. apply Z.mod_pos_bound. reflexivity. }
  unfold Pixel.a, Pixel.r, Pixel.g, Pixel.b.
  repeat split; apply Z.bits_inj'; intros n Hn;
    rewrite ?Z.land_spec, ?Z.shiftr_spec, ?pngPixel_testbit, ?mask_testbit by lia.
  - destruct (Z.ltb_spec n 8).
    + replace (24 <=? n + 24) with true by (symmetry; apply Z.leb_le; lia).
      replace (n + 24 <? 32) with true by (symmetry; apply Z.ltb_lt; lia).
      rewrite orb_true_r. reflexivity.
    + replace (n + 24 <? 32) with false by (symmetry; apply Z.ltb_ge; lia).
      rewrite andb_false_r. reflexivity.
  - destruct (Z.ltb_spec n 8).
    + replace (24 <=? n + 16) with false by (symmetry; apply Z.leb_gt; lia).
      replace (n + 16 <? 32) with true by (symmetry; apply Z.ltb_lt; lia).
      cbn [andb]. rewrite orb_false_r, andb_true_r. reflexivity.
    + rewrite !andb_false_r. reflexivity.
  - destruct (Z.ltb_spec n 8).
    + replace (24 <=? n + 8) with false by (symmetry; apply Z.leb_gt; lia).
      replace (n + 8 <? 32) with true by (symmetry; apply Z.ltb_lt; lia).
      cbn [andb]. rewrite orb_false_r, andb_true_r. reflexivity.
    + rewrite !andb_false_r. reflexivity.
  - destruct (Z.ltb_spec n 8).
    + replace (24 <=? n) with false by (symmetry; apply Z.leb_gt; lia).
      replace (n <? 32) with true by (symmetry; apply Z.ltb_lt; lia).
      cbn [andb]. rewrite orb_false_r, andb_true_r. reflexivity.
    + rewrite !andb_false_r. reflexivity.
Qed.






